(** * ring_buffer: a shallow embedding of the macro-generated ring buffer

    Sources: [include/ring_buffer.h] (control structure, scalar operations)
    and [include/ring_buffer_string.h] (bulk "string" operations).

    The headers generate one structure and one set of functions per
    (NAME, TYPE, LEN).  The embedding is generic in the element type [T]
    (TYPE) and takes the capacity from the storage array itself, as the
    macros do through [ARRAY_COUNT].  Functions are named after the macro
    that defines them ([ringbuffer_push_front_def] gives
    [ringbuffer_push_front]). *)

From Stdlib Require Import ZArith Lia Bool List.
From stdpp Require Import base list.

Local Open Scope Z_scope.

(** ** Machine integers

    [index_t] is [uint32_t]; [size_t] is taken to be 64 bits wide (LP64).
    Values are kept in [Z] and every C operation that can wrap is followed
    by the reduction it performs. *)

Definition INDEX_BITS : Z := 32.
Definition SIZE_BITS : Z := 64.
Definition INDEX_MOD : Z := 2 ^ INDEX_BITS.
Definition SIZE_MOD : Z := 2 ^ SIZE_BITS.
Definition SIZE_MAX : Z := SIZE_MOD - 1.

Definition to_index (z : Z) : Z := z mod INDEX_MOD.
Definition to_size (z : Z) : Z := z mod SIZE_MOD.

(** [N] is a power of two: [N = 2 ^ k] for some [k >= 0]. *)
Definition power_of_two (n : Z) : Prop := exists k, 0 <= k /\ n = 2 ^ k.

(** ** Caller memory

    [dest] is a pointer to elements owned by the caller; it is modelled as
    the unbounded array of cells reachable from that pointer. *)

Definition store {T : Type} (m : Z -> T) (i : Z) (v : T) : Z -> T :=
  fun j => if j =? i then v else m j.

Section RingBuffer.

Context {T : Type}.
(** The value [((TYPE)0)], used as terminator by the c-string operations. *)
Variable zero : T.

(** ** Control structure ([ringbuffer_type_def])

    The members a push callback can reach through its [rb] argument are
    kept apart from the callback pointer itself, so that the callback type
    can mention them. *)

Record ring_cells : Type := RingCells {
  input : Z;
  output : Z;
  data_buffer : list T
}.

(** [bool ( * NAME_push_callback_t )( NAME *rb, TYPE *data )]: the callback
    receives the buffer by reference and may update it. *)
Definition push_callback_t : Type := ring_cells -> T -> bool * ring_cells.

Record ring_buffer : Type := RingBuffer {
  cells :> ring_cells;
  push_callback : option push_callback_t
}.

Definition with_cells (rb : ring_buffer) (c : ring_cells) : ring_buffer :=
  {| cells := c; push_callback := push_callback rb |}.

Definition set_input (rb : ring_buffer) (i : Z) : ring_buffer :=
  with_cells rb {| input := i; output := output rb; data_buffer := data_buffer rb |}.

Definition set_output (rb : ring_buffer) (o : Z) : ring_buffer :=
  with_cells rb {| input := input rb; output := o; data_buffer := data_buffer rb |}.

Definition set_data_buffer (rb : ring_buffer) (d : list T) : ring_buffer :=
  with_cells rb {| input := input rb; output := output rb; data_buffer := d |}.

(** ** Helper macros *)

(** Modelled from the spec: [ARRAY_COUNT] comes from [utility.h], which is
    not among the sources; it is the element count of an array, the
    capacity N of the spec. *)
Definition ARRAY_COUNT (a : list T) : Z := Z.of_nat (length a).

(** [BUFFER_LEN( NAME )] *)
Definition BUFFER_LEN (rb : ring_cells) : Z := ARRAY_COUNT (data_buffer rb).

(** [RINGBUF_WRAP( rb, index )]: [index & ( ARRAY_COUNT( data_buffer ) - 1 )],
    the subtraction being done in [size_t]. *)
Definition RINGBUF_WRAP (rb : ring_cells) (index : Z) : Z :=
  Z.land index (to_size (BUFFER_LEN rb - 1)).

(** Reading [data_buffer[ i ]]. *)
Definition slot (rb : ring_cells) (i : Z) : T :=
  nth (Z.to_nat i) (data_buffer rb) zero.

(** [RINGBUF_CURR_i( rb ) = v] *)
Definition RINGBUF_CURR_i_store (rb : ring_buffer) (v : T) : ring_buffer :=
  set_data_buffer rb
    (<[Z.to_nat (RINGBUF_WRAP rb (input rb)) := v]> (data_buffer rb)).

(** [RINGBUF_CURR_o( rb, offset )]: the slot at [output + offset], the sum
    being an [index_t].  [TEST] and [EFIRST] come from [cprep_tricks.h],
    which is not among the sources; [TEST( x )( a, b )] is taken to expand
    to [a] when [x] is given and to [b] when it is empty. *)
Definition RINGBUF_CURR_o_at (rb : ring_cells) (offset : Z) : Z :=
  RINGBUF_WRAP rb (to_index (output rb + offset)).

(** [RINGBUF_CURR_o( rb )] with no offset, as an rvalue. *)
Definition RINGBUF_CURR_o (rb : ring_cells) : T :=
  slot rb (RINGBUF_WRAP rb (output rb)).

(** ** Scalar operations ([ringbuffer_define_all]) *)

Definition ringbuffer_init (rb : ring_buffer) (cb : option push_callback_t)
  : ring_buffer :=
  {| cells := {| input := 0; output := 0; data_buffer := data_buffer rb |};
     push_callback := cb |}.

(** [rb->input - rb->output] is a difference of two [uint32_t], reduced
    modulo [2 ^ 32] before it becomes the [size_t] result. *)
Definition ringbuffer_count (rb : ring_cells) : Z :=
  to_index (input rb - output rb).

Definition ringbuffer_empty (rb : ring_cells) : bool :=
  0 =? ringbuffer_count rb.

Definition ringbuffer_full (rb : ring_cells) : bool :=
  ringbuffer_count rb =? BUFFER_LEN rb.

(** [rb->input++] and [rb->output++] *)
Definition inc_input (rb : ring_buffer) : ring_buffer :=
  set_input rb (to_index (input rb + 1)).

Definition inc_output (rb : ring_buffer) : ring_buffer :=
  set_output rb (to_index (output rb + 1)).

Definition ringbuffer_push_front (rb : ring_buffer) (data : T)
  : bool * ring_buffer :=
  if ringbuffer_full rb then (false, rb)
  else
    match push_callback rb with
    | Some cb =>
        let '(ok, c) := cb (cells rb) data in
        if ok then (true, inc_input (with_cells rb c))
        else (false, with_cells rb c)
    | None => (true, inc_input (RINGBUF_CURR_i_store rb data))
    end.

Definition ringbuffer_pop_back (rb : ring_buffer) : bool * ring_buffer :=
  if ringbuffer_empty rb then (false, rb)
  else (true, inc_output rb).

(** The returned pointer is the position of the referenced slot inside
    [data_buffer]; [None] is [NULL]. *)
Definition ringbuffer_peek (rb : ring_buffer) (offset : Z)
  : option Z * ring_buffer :=
  if ringbuffer_count rb >? offset
  then (Some (RINGBUF_CURR_o_at rb offset), rb)
  else (None, rb).

(** ** Well-formedness and vocabulary of the properties *)

(** The two cursors hold values of type [index_t]. *)
Definition index_ok (c : ring_cells) : Prop :=
  0 <= input c < INDEX_MOD /\ 0 <= output c < INDEX_MOD.

(** The invariant of the data model: at most [N] elements are buffered. *)
Definition count_ok (c : ring_cells) : Prop :=
  0 <= ringbuffer_count c <= BUFFER_LEN c.

(** The element at logical position [k], counted from the oldest one:
    what [ringbuffer_peek rb k] points to. *)
Definition oldest (c : ring_cells) (k : Z) : T :=
  slot c (RINGBUF_CURR_o_at c k).

(** The buffer once its [k] oldest elements have been consumed. *)
Definition advance (rb : ring_buffer) (k : Z) : ring_buffer :=
  set_output rb (to_index (output rb + k)).

(** The strategy of [rb], if any, refuses [v]. *)
Definition strategy_rejects (rb : ring_buffer) (v : T) : bool :=
  match push_callback rb with
  | Some cb => negb (fst (cb (cells rb) v))
  | None => false
  end.

(** The contract of a push callback: it may write into the storage but
    leaves the two cursors alone. *)
Definition callback_keeps_cursors (rb : ring_buffer) : Prop :=
  forall cb, push_callback rb = Some cb ->
  forall c v, input (snd (cb c v)) = input c /\ output (snd (cb c v)) = output c.

(** The storage is an array member: a callback cannot change its size. *)
Definition callback_keeps_capacity (rb : ring_buffer) : Prop :=
  forall cb, push_callback rb = Some cb ->
  forall c v, length (data_buffer (snd (cb c v))) = length (data_buffer c).

(** ** Bulk transfer ([ring_buffer_string.h])

    The four functions are [for] loops over local variables.  A loop is
    run by [for_loop] below; a function's locals are gathered in a frame. *)

(** Locals of [ringbuffer_push_string]. *)
Record push_frame : Type := PushFrame {
  q_rb : ring_buffer;
  q_count : Z;
  q_len : Z
}.

(** Locals of the three pop functions. *)
Record pop_frame : Type := PopFrame {
  p_rb : ring_buffer;
  p_dest : Z -> T;
  p_count : Z;
  p_limit : Z
}.

(** What a pop function leaves behind: the returned count, the buffer and
    the caller's memory. *)
Record pop_result : Type := PopResult {
  transferred : Z;
  rb_after : ring_buffer;
  dest_after : Z -> T
}.

End RingBuffer.

Arguments ring_cells : clear implicits.
Arguments ring_buffer : clear implicits.
Arguments push_callback_t : clear implicits.
Arguments push_frame : clear implicits.
Arguments pop_frame : clear implicits.
Arguments pop_result : clear implicits.

(** ** C [for] loops

    [for ( ; test; step ) body], where [test] may update locals (as
    [limit--] does), and [body] may end with [continue] or [break].  The
    fuel bounds the number of iterations; [None] means it ran out. *)

Inductive ctl : Type := Next | Continue | Break.

Section ForLoop.

Context {S : Type}.
Variable test : S -> bool * S.
Variable body : S -> ctl * S.
Variable step : S -> S.

Fixpoint for_loop (fuel : nat) (s : S) : option S :=
  let '(go, s1) := test s in
  if go then
    match fuel with
    | O => None
    | Datatypes.S f =>
        match body s1 with
        | (Break, s2) => Some s2
        | (_, s2) => for_loop f (step s2)
        end
    end
  else Some s1.

End ForLoop.

(** What [BEHAV] of [ringbuffer_pop_cstring_cond_def] does when [COND]
    holds: [continue] (skip the element) or [break] (halt). *)
Inductive on_match : Type := skip | halt.

Definition ctl_of (b : on_match) : ctl :=
  match b with skip => Continue | halt => Break end.

Section BulkTransfer.

Context {T : Type}.
Variable zero : T.

(** *** [ringbuffer_push_string]

    The body reads [src[ count++ ]] although the parameter is declared as
    [data]; [src] is taken to be that source array.  The loop goes on while
    [len && NAME_full( rb )] and stores through [RINGBUF_CURR_i] without
    calling [push_front]. *)

Definition push_string_test (s : push_frame T) : bool * push_frame T :=
  (negb (q_len s =? 0) && ringbuffer_full (q_rb s), s).

Definition push_string_body (src : list T) (s : push_frame T)
  : ctl * push_frame T :=
  (Next,
   {| q_rb := RINGBUF_CURR_i_store (q_rb s) (nth (Z.to_nat (q_count s)) src zero);
      q_count := to_size (q_count s + 1);
      q_len := q_len s |}).

Definition push_string_step (s : push_frame T) : push_frame T :=
  {| q_rb := inc_input (q_rb s);
     q_count := q_count s;
     q_len := to_size (q_len s - 1) |}.

Definition ringbuffer_push_string (rb : ring_buffer T) (src : list T) (len : Z)
  : option (Z * ring_buffer T) :=
  match for_loop push_string_test (push_string_body src) push_string_step
          (Z.to_nat len) {| q_rb := rb; q_count := 0; q_len := len |} with
  | Some s => Some (q_count s, q_rb s)
  | None => None
  end.

(** *** The pop functions *)

(** [dest[ count++ ] = RINGBUF_CURR_o( rb )] *)
Definition copy_oldest (s : pop_frame T) : pop_frame T :=
  {| p_rb := p_rb s;
     p_dest := store (p_dest s) (p_count s) (RINGBUF_CURR_o zero (p_rb s));
     p_count := to_size (p_count s + 1);
     p_limit := p_limit s |}.

(** [rb->output++] *)
Definition pop_step (s : pop_frame T) : pop_frame T :=
  {| p_rb := inc_output (p_rb s);
     p_dest := p_dest s;
     p_count := p_count s;
     p_limit := p_limit s |}.

Definition set_limit (s : pop_frame T) (l : Z) : pop_frame T :=
  {| p_rb := p_rb s; p_dest := p_dest s; p_count := p_count s; p_limit := l |}.

(** [limit-- && NAME_count( rb )] *)
Definition pop_string_test (s : pop_frame T) : bool * pop_frame T :=
  (negb (p_limit s =? 0) && negb (ringbuffer_count (p_rb s) =? 0),
   set_limit s (to_size (p_limit s - 1))).

(** [--limit && NAME_count( rb )] *)
Definition pop_cstring_test (s : pop_frame T) : bool * pop_frame T :=
  let l := to_size (p_limit s - 1) in
  (negb (l =? 0) && negb (ringbuffer_count (p_rb s) =? 0), set_limit s l).

(** The shape the two tests share: [left l] iterations are left to the
    limit [l], and the test leaves [next l] in [limit]. *)
Definition budget_test (left next : Z -> Z) (s : pop_frame T)
  : bool * pop_frame T :=
  (negb (left (p_limit s) =? 0) && negb (ringbuffer_count (p_rb s) =? 0),
   set_limit s (next (p_limit s))).

(** [COND] holds for none of the [n] oldest elements. *)
Definition never_matches (paste : option ((ring_buffer T -> bool) * on_match))
    (rb : ring_buffer T) (n : Z) : Prop :=
  match paste with
  | Some (COND, _) => forall i, 0 <= i < n -> COND (advance rb i) = false
  | None => True
  end.

(** [r] is what is left when all buffered elements of [rb] went to [dest],
    oldest first, followed by a terminator: [count() + 1] cells written. *)
Definition drained (rb : ring_buffer T) (dest : Z -> T) (r : pop_result T)
  : Prop :=
  transferred r = ringbuffer_count rb /\
  (forall i, 0 <= i < ringbuffer_count rb -> dest_after r i = oldest zero rb i) /\
  dest_after r (ringbuffer_count rb) = zero /\
  (forall i, ~ 0 <= i <= ringbuffer_count rb -> dest_after r i = dest i) /\
  ringbuffer_empty (rb_after r) = true.

Definition pop_body (s : pop_frame T) : ctl * pop_frame T :=
  (Next, copy_oldest s).

(** [PASTE_cond( COND, BEHAV )] followed by the copy.  [None] stands for an
    empty [COND] or [BEHAV], for which the macro pastes nothing; [COND] is
    an expression over [rb]. *)
Definition pop_cond_body (paste : option ((ring_buffer T -> bool) * on_match))
    (s : pop_frame T) : ctl * pop_frame T :=
  match paste with
  | Some (COND, BEHAV) =>
      if COND (p_rb s) then (ctl_of BEHAV, s) else (Next, copy_oldest s)
  | None => (Next, copy_oldest s)
  end.

Definition pop_enter (rb : ring_buffer T) (dest : Z -> T) (limit : Z)
  : pop_frame T :=
  {| p_rb := rb; p_dest := dest; p_count := 0; p_limit := limit |}.

Definition pop_return (s : pop_frame T) : pop_result T :=
  {| transferred := p_count s; rb_after := p_rb s; dest_after := p_dest s |}.

(** [dest[ count ] = ( ( TYPE )0 )] *)
Definition terminate (s : pop_frame T) : pop_frame T :=
  {| p_rb := p_rb s;
     p_dest := store (p_dest s) (p_count s) zero;
     p_count := p_count s;
     p_limit := p_limit s |}.

Definition pop_fuel (rb : ring_buffer T) : nat := Z.to_nat (ringbuffer_count rb).

Definition ringbuffer_pop_string (rb : ring_buffer T) (dest : Z -> T) (limit : Z)
  : option (pop_result T) :=
  if ringbuffer_empty rb then Some (PopResult 0 rb dest)
  else
    match for_loop pop_string_test pop_body pop_step
            (pop_fuel rb) (pop_enter rb dest limit) with
    | Some s => Some (pop_return s)
    | None => None
    end.

Definition ringbuffer_pop_cstring (rb : ring_buffer T) (dest : Z -> T) (limit : Z)
  : option (pop_result T) :=
  if ringbuffer_empty rb then Some (PopResult 0 rb dest)
  else
    match for_loop pop_cstring_test pop_body pop_step
            (pop_fuel rb) (pop_enter rb dest limit) with
    | Some s => Some (pop_return (terminate s))
    | None => None
    end.

(** The loop of [ringbuffer_pop_cstring_cond_def]. *)
Definition pop_cstring_cond_loop
    (paste : option ((ring_buffer T -> bool) * on_match))
  : nat -> pop_frame T -> option (pop_frame T) :=
  for_loop pop_cstring_test (pop_cond_body paste) pop_step.

Definition ringbuffer_pop_cstring_cond
    (paste : option ((ring_buffer T -> bool) * on_match))
    (rb : ring_buffer T) (dest : Z -> T) (limit : Z)
  : option (pop_result T) :=
  if ringbuffer_empty rb then Some (PopResult 0 rb dest)
  else
    match pop_cstring_cond_loop paste
            (pop_fuel rb) (pop_enter rb dest limit) with
    | Some s => Some (pop_return (terminate s))
    | None => None
    end.

(** A predicate on the current oldest element, as in the header's examples
    [0 == RINGBUF_CURR_o( rb )]. *)
Definition on_oldest (p : T -> bool) : ring_buffer T -> bool :=
  fun rb => p (RINGBUF_CURR_o zero rb).

End BulkTransfer.

(** ** Concrete buffers of [int] used in the examples *)

Definition int_buffer (i o : Z) (d : list Z) : ring_buffer Z :=
  {| cells := {| input := i; output := o; data_buffer := d |};
     push_callback := None |}.

(** A strategy that stores the value itself and accepts even values only. *)
Definition even_only : push_callback_t Z :=
  fun c v =>
    (Z.even v,
     {| input := input c; output := output c;
        data_buffer := <[Z.to_nat (RINGBUF_WRAP c (input c)) := v]> (data_buffer c) |}).

(** The push callback sketched in the header's documentation:
    [rb->data_buffer[ RINGBUF_WRAP ( rb, rb->input++ ) ] = data; return true;] *)
Definition store_and_advance : push_callback_t Z :=
  fun c v =>
    (true,
     {| input := to_index (input c + 1); output := output c;
        data_buffer := <[Z.to_nat (RINGBUF_WRAP c (input c)) := v]> (data_buffer c) |}).

Definition guarded_buffer (i o : Z) (d : list Z) : ring_buffer Z :=
  {| cells := {| input := i; output := o; data_buffer := d |};
     push_callback := Some even_only |}.

(** A buffer of capacity 4 whose cursors straddle the wrap of [index_t]:
    [output] is [UINT32_MAX] and [input] is 1, so 40 and 10 are buffered. *)
Definition wrapped_buffer : ring_buffer Z :=
  int_buffer 1 4294967295 [10; 20; 30; 40].

Definition view {T : Type} (m : Z -> T) (n : nat) : list T :=
  map (fun i => m (Z.of_nat i)) (seq 0 n).


(** ** The buffer seen as a queue *)

Section QueueView.

Context {T : Type}.
Variable zero : T.

(** The capacity the header asks for: a power of two, and small enough for
    [count()] to tell a full buffer from an empty one. *)
Definition capacity_ok (c : ring_cells T) : Prop :=
  power_of_two (BUFFER_LEN c) /\ BUFFER_LEN c < INDEX_MOD.

(** The [n] oldest positions, oldest first. *)
Definition elements (c : ring_cells T) (n : nat) : list T :=
  map (fun i => oldest zero c (Z.of_nat i)) (seq 0 n).

(** The buffered elements, oldest first. *)
Definition contents (c : ring_cells T) : list T :=
  elements c (Z.to_nat (ringbuffer_count c)).

(** [push_front] called on each value of [l] in turn; the number of calls
    that returned true, and the buffer left. *)
Fixpoint push_front_all (rb : ring_buffer T) (l : list T) : Z * ring_buffer T :=
  match l with
  | [] => (0, rb)
  | v :: l' =>
      let '(ok, rb1) := ringbuffer_push_front rb v in
      let '(n, rb2) := push_front_all rb1 l' in
      ((if ok then 1 else 0) + n, rb2)
  end.

(** [pop_back] called [n] times, results dropped. *)
Definition pop_back_times (n : nat) (rb : ring_buffer T) : ring_buffer T :=
  Nat.iter n (fun rb => snd (ringbuffer_pop_back rb)) rb.

(** What the loop of [pop_cstring_cond] makes of a list of elements it
    visits in turn: the elements it copies and how many it consumes. *)
Fixpoint cond_run (p : T -> bool) (b : on_match) (l : list T) : list T * nat :=
  match l with
  | [] => ([], 0%nat)
  | x :: l' =>
      if p x then
        match b with
        | skip => (fst (cond_run p b l'), S (snd (cond_run p b l')))
        | halt => ([], 0%nat)
        end
      else (x :: fst (cond_run p b l'), S (snd (cond_run p b l')))
  end.

(** [r] is a result that respects [limit]: at most [limit - 1] elements
    were copied and at most that many consumed, nothing outside
    [dest[0 .. limit - 1]] was written, and [input] and the storage are as
    in [rb]. *)
Definition stays_within (rb : ring_buffer T) (dest : Z -> T) (limit : Z)
    (r : pop_result T) : Prop :=
  0 <= transferred r <= limit - 1 /\
  (forall j, ~ 0 <= j < limit -> dest_after r j = dest j) /\
  ringbuffer_count rb - (limit - 1) <= ringbuffer_count (rb_after r) /\
  ringbuffer_count (rb_after r) <= ringbuffer_count rb - transferred r /\
  input (rb_after r) = input rb /\
  data_buffer (rb_after r) = data_buffer rb.

End QueueView.

(** * Properties *)

(** ** Arithmetic of the two integer types *)

Lemma INDEX_MOD_pos : 0 < INDEX_MOD.
Proof. reflexivity. Qed.

Lemma SIZE_MOD_pos : 0 < SIZE_MOD.
Proof. reflexivity. Qed.

Lemma INDEX_MOD_le_SIZE_MOD : INDEX_MOD <= SIZE_MOD.
Proof. discriminate. Qed.

Lemma to_index_range z : 0 <= to_index z < INDEX_MOD.
Proof. apply Z.mod_pos_bound, INDEX_MOD_pos. Qed.

Lemma to_size_range z : 0 <= to_size z < SIZE_MOD.
Proof. apply Z.mod_pos_bound, SIZE_MOD_pos. Qed.

Lemma to_index_small z : 0 <= z < INDEX_MOD -> to_index z = z.
Proof. apply Z.mod_small. Qed.

Lemma to_size_small z : 0 <= z < SIZE_MOD -> to_size z = z.
Proof. apply Z.mod_small. Qed.

Lemma to_index_add_l a b : to_index (to_index a + b) = to_index (a + b).
Proof. apply Zplus_mod_idemp_l. Qed.

Lemma to_index_sub_l a b : to_index (to_index a - b) = to_index (a - b).
Proof. apply Zminus_mod_idemp_l. Qed.

Lemma to_index_sub_r a b : to_index (a - to_index b) = to_index (a - b).
Proof. apply Zminus_mod_idemp_r. Qed.

(** Masking with [2 ^ k - 1] is reduction modulo [2 ^ k]; on an [index_t]
    the wrap of the counter is invisible behind the mask. *)
Lemma land_mask_index x k :
  0 <= k <= INDEX_BITS ->
  Z.land (to_index x) (2 ^ k - 1) = Z.land x (2 ^ k - 1).
Proof.
  intros Hk. unfold to_index, INDEX_MOD.
  replace (2 ^ k - 1) with (Z.ones k) by (rewrite Z.ones_equiv; lia).
  rewrite !Z.land_ones by lia.
  replace INDEX_BITS with (k + (INDEX_BITS - k)) at 1 by lia.
  rewrite Z.pow_add_r by lia.
  rewrite Z.rem_mul_r by (try apply Z.pow_nonzero; try apply Z.pow_pos_nonneg; lia).
  rewrite Z.mul_comm, Z.mod_add by (apply Z.pow_nonzero; lia).
  apply Z.mod_mod, Z.pow_nonzero; lia.
Qed.

Lemma land_mask_range x k : 0 <= k -> 0 <= Z.land x (2 ^ k - 1) < 2 ^ k.
Proof.
  intros Hk.
  replace (2 ^ k - 1) with (Z.ones k) by (rewrite Z.ones_equiv; lia).
  rewrite Z.land_ones by lia. apply Z.mod_pos_bound, Z.pow_pos_nonneg; lia.
Qed.

(** For a capacity [2 ^ k] that fits the counter, [to_size (N - 1)] is the
    mask [N - 1] and the masked index is below [N]. *)
Lemma mask_power_of_two n x :
  power_of_two n -> n <= INDEX_MOD ->
  Z.land (to_index x) (to_size (n - 1)) = Z.land x (n - 1) /\
  0 <= Z.land x (n - 1) < n.
Proof.
  intros (k & Hk & ->) Hle.
  assert (k <= INDEX_BITS).
  { destruct (Z.le_gt_cases k INDEX_BITS) as [|Hgt]; [assumption|].
    apply (Z.pow_lt_mono_r 2) in Hgt; unfold INDEX_MOD in Hle; lia. }
  assert (0 < 2 ^ k) by (apply Z.pow_pos_nonneg; lia).
  rewrite to_size_small by (pose proof INDEX_MOD_le_SIZE_MOD; lia).
  split; [apply land_mask_index; lia | apply land_mask_range; lia].
Qed.

Section CoreProperties.

Context {T : Type}.
Variable zero : T.
Implicit Types (rb : ring_buffer T) (c : ring_cells T).

Lemma count_range c : 0 <= ringbuffer_count c < INDEX_MOD.
Proof. apply to_index_range. Qed.

Lemma empty_iff c : ringbuffer_empty c = true <-> ringbuffer_count c = 0.
Proof. unfold ringbuffer_empty. rewrite Z.eqb_eq. intuition congruence. Qed.

Lemma empty_false_iff c : ringbuffer_empty c = false <-> ringbuffer_count c <> 0.
Proof. unfold ringbuffer_empty. rewrite Z.eqb_neq. intuition congruence. Qed.

Lemma full_iff c : ringbuffer_full c = true <-> ringbuffer_count c = BUFFER_LEN c.
Proof. unfold ringbuffer_full. apply Z.eqb_eq. Qed.

Lemma count_inc_output rb :
  ringbuffer_count rb <> 0 ->
  ringbuffer_count (inc_output rb) = ringbuffer_count rb - 1.
Proof.
  unfold ringbuffer_count; cbn. intros Hne.
  rewrite to_index_sub_r.
  replace (input rb - (output rb + 1)) with (input rb - output rb - 1) by lia.
  rewrite <- to_index_sub_l.
  pose proof (to_index_range (input rb - output rb)).
  apply to_index_small. lia.
Qed.

Lemma count_inc_input rb :
  ringbuffer_count (inc_input rb) = to_index (ringbuffer_count rb + 1).
Proof.
  unfold ringbuffer_count; cbn.
  rewrite to_index_sub_l, to_index_add_l. f_equal. lia.
Qed.

Lemma index_ok_inc_output rb : index_ok rb -> index_ok (inc_output rb).
Proof.
  intros [Hi _]. split; cbn; [exact Hi | apply to_index_range].
Qed.

Lemma index_ok_inc_input rb : index_ok rb -> index_ok (inc_input rb).
Proof.
  intros [_ Ho]. split; cbn; [apply to_index_range | exact Ho].
Qed.

(** ** Scalar operations *)

(** What [ringbuffer_push_front] does once the buffer is known not to be
    full, whatever the callback does. *)
Lemma push_front_not_full rb v :
  ringbuffer_full rb = false ->
  ringbuffer_push_front rb v =
    match push_callback rb with
    | Some cb =>
        if fst (cb (cells rb) v)
        then (true, inc_input (with_cells rb (snd (cb (cells rb) v))))
        else (false, with_cells rb (snd (cb (cells rb) v)))
    | None => (true, inc_input (RINGBUF_CURR_i_store rb v))
    end.
Proof.
  intros Hf. unfold ringbuffer_push_front. rewrite Hf.
  destruct (push_callback rb) as [cb|]; [|reflexivity].
  destruct (cb (cells rb) v) as [ok c]. reflexivity.
Qed.

(** C4, as amended: with a strategy that leaves the two cursors alone (or
    with none), [push_front] returns false exactly when the buffer is full
    or the strategy refuses the value, and then [input] and the count are
    what they were (nothing at all changes when the buffer is full);
    otherwise it returns true, [input] has advanced by exactly one, and
    with no strategy the value sits at [data_buffer[input & (N - 1)]]. *)
Theorem push_front_fails_iff_full_or_rejected rb v :
  callback_keeps_cursors rb ->
  let r := ringbuffer_push_front rb v in
  (fst r = false <-> ringbuffer_full rb = true \/ strategy_rejects rb v = true) /\
  (ringbuffer_full rb = true -> snd r = rb) /\
  (fst r = false ->
     input (snd r) = input rb /\ output (snd r) = output rb /\
     ringbuffer_count (snd r) = ringbuffer_count rb) /\
  (fst r = true ->
     input (snd r) = to_index (input rb + 1) /\ output (snd r) = output rb /\
     ringbuffer_count (snd r) = to_index (ringbuffer_count rb + 1)) /\
  (fst r = true -> push_callback rb = None ->
     data_buffer (snd r) =
       <[Z.to_nat (Z.land (input rb) (to_size (BUFFER_LEN rb - 1))) := v]>
         (data_buffer rb)).
Proof.
  intros Hcb r. subst r.
  destruct (ringbuffer_full rb) eqn:Hf.
  { unfold ringbuffer_push_front. rewrite Hf. cbn.
    repeat split; auto; discriminate. }
  rewrite push_front_not_full by exact Hf.
  unfold strategy_rejects.
  destruct (push_callback rb) as [cb|] eqn:Hp.
  - destruct (Hcb cb Hp (cells rb) v) as [Hi Ho].
    destruct (cb (cells rb) v) as [ok c]. cbn in Hi, Ho |- *.
    destruct ok; cbn.
    + repeat split; try discriminate; try (intros [?|?]; discriminate).
      * congruence.
      * exact Ho.
      * unfold ringbuffer_count; cbn. rewrite Hi, Ho.
        rewrite to_index_sub_l, to_index_add_l. f_equal. lia.
    + repeat split; auto; try discriminate.
      unfold ringbuffer_count; cbn. congruence.
  - cbn. repeat split; try discriminate; try (intros [?|?]; discriminate).
    apply (count_inc_input (RINGBUF_CURR_i_store rb v)).
Qed.

(** C5: [pop_back] returns false exactly when the buffer is empty and then
    returns the buffer as it was; otherwise it returns true, [output] has
    advanced by exactly one (so the count went down by one), and [input]
    and every slot of the storage are untouched. *)
Theorem pop_back_fails_iff_empty rb :
  let r := ringbuffer_pop_back rb in
  (fst r = false <-> ringbuffer_empty rb = true) /\
  (ringbuffer_empty rb = true -> snd r = rb) /\
  (ringbuffer_empty rb = false ->
     fst r = true /\
     output (snd r) = to_index (output rb + 1) /\
     input (snd r) = input rb /\
     data_buffer (snd r) = data_buffer rb /\
     push_callback (snd r) = push_callback rb /\
     ringbuffer_count (snd r) = ringbuffer_count rb - 1).
Proof.
  intros r. subst r. unfold ringbuffer_pop_back.
  destruct (ringbuffer_empty rb) eqn:He; cbn.
  - repeat split; auto; discriminate.
  - repeat split; try discriminate.
    apply count_inc_output, empty_false_iff, He.
Qed.

(** C6: [peek] returns the position [(output + offset) & (N - 1)] of the
    storage when [offset < count()], and NULL otherwise; the buffer it
    leaves is the buffer it was given.  The sum is an [index_t]; for a
    capacity that is a power of two the wrap of the sum does not show
    behind the mask, and the position is inside the storage. *)
Theorem peek_in_range_or_absent rb offset :
  let r := ringbuffer_peek rb offset in
  snd r = rb /\
  (offset < ringbuffer_count rb ->
     fst r = Some (Z.land (to_index (output rb + offset))
                          (to_size (BUFFER_LEN rb - 1)))) /\
  (ringbuffer_count rb <= offset -> fst r = None) /\
  (power_of_two (BUFFER_LEN rb) -> BUFFER_LEN rb <= INDEX_MOD ->
     Z.land (to_index (output rb + offset)) (to_size (BUFFER_LEN rb - 1))
       = Z.land (output rb + offset) (BUFFER_LEN rb - 1) /\
     0 <= Z.land (output rb + offset) (BUFFER_LEN rb - 1) < BUFFER_LEN rb).
Proof.
  intros r. subst r. unfold ringbuffer_peek.
  destruct (Z.gtb_spec (ringbuffer_count rb) offset) as [Hlt|Hge]; cbn.
  - repeat split; auto; try lia; apply mask_power_of_two; assumption.
  - repeat split; auto; try lia; apply mask_power_of_two; assumption.
Qed.

End CoreProperties.

(** ** Loops *)

Section ForLoopProperties.

Context {S : Type}.
Variable test : S -> bool * S.
Variable body : S -> ctl * S.
Variable step : S -> S.

Lemma for_loop_exit fuel s :
  fst (test s) = false -> for_loop test body step fuel s = Some (snd (test s)).
Proof.
  intros H. destruct fuel; cbn; destruct (test s) as [go s1]; cbn in *;
    subst go; reflexivity.
Qed.

Lemma for_loop_iter fuel s :
  fst (test s) = true ->
  for_loop test body step (Datatypes.S fuel) s =
    match body (snd (test s)) with
    | (Break, s2) => Some s2
    | (_, s2) => for_loop test body step fuel (step s2)
    end.
Proof.
  intros H. cbn. destruct (test s) as [go s1]; cbn in *; subst go; reflexivity.
Qed.

End ForLoopProperties.

(** Splits a conjunction of frame conditions and closes the easy parts. *)
Ltac frame :=
  repeat match goal with |- _ /\ _ => split end;
  try reflexivity; try lia; auto.

Section PopLoops.

Context {T : Type}.
Variable zero : T.
Implicit Types (rb : ring_buffer T) (s : pop_frame T).

Lemma pop_string_test_budget :
  pop_string_test (T := T) = budget_test (fun l => l) (fun l => to_size (l - 1)).
Proof. reflexivity. Qed.

Lemma pop_cstring_test_budget :
  pop_cstring_test (T := T) =
    budget_test (fun l => to_size (l - 1)) (fun l => to_size (l - 1)).
Proof. reflexivity. Qed.

Lemma advance_0 rb : index_ok rb -> advance rb 0 = rb.
Proof.
  intros [_ Ho]. destruct rb as [[i o d] cb]; cbn in *.
  unfold advance, set_output, with_cells; cbn.
  rewrite Z.add_0_r, to_index_small by exact Ho. reflexivity.
Qed.

Lemma advance_inc_output rb k : advance (inc_output rb) k = advance rb (k + 1).
Proof.
  unfold advance, inc_output, set_output, with_cells; cbn.
  rewrite to_index_add_l.
  replace (output rb + 1 + k) with (output rb + (k + 1)) by lia. reflexivity.
Qed.

Lemma oldest_0 rb : index_ok rb -> oldest zero rb 0 = RINGBUF_CURR_o zero rb.
Proof.
  intros [_ Ho]. unfold oldest, RINGBUF_CURR_o, RINGBUF_CURR_o_at.
  rewrite Z.add_0_r, to_index_small by exact Ho. reflexivity.
Qed.

Lemma oldest_inc_output rb k :
  oldest zero (inc_output rb) k = oldest zero rb (k + 1).
Proof.
  unfold oldest, RINGBUF_CURR_o_at, slot, RINGBUF_WRAP, BUFFER_LEN; cbn.
  rewrite to_index_add_l.
  replace (output rb + 1 + k) with (output rb + (k + 1)) by lia. reflexivity.
Qed.

Lemma p_rb_pop_step s : p_rb (pop_step s) = inc_output (p_rb s).
Proof. reflexivity. Qed.

Lemma budget_test_go left next s :
  fst (budget_test left next s) = true <->
  left (p_limit s) <> 0 /\ ringbuffer_count (p_rb s) <> 0.
Proof.
  unfold budget_test; cbn.
  rewrite andb_true_iff, !negb_true_iff, !Z.eqb_neq. reflexivity.
Qed.

Lemma budget_test_stop left next s :
  fst (budget_test left next s) = false <->
  left (p_limit s) = 0 \/ ringbuffer_count (p_rb s) = 0.
Proof.
  unfold budget_test; cbn.
  rewrite andb_false_iff, !negb_false_iff, !Z.eqb_eq. reflexivity.
Qed.

(** Every pop loop ends within [count()] iterations, whatever the limit,
    the condition and its action; it touches neither [input] nor the
    storage, and never lets the count grow. *)
Lemma pop_loop_terminates left next paste fuel : forall s,
  (Z.to_nat (ringbuffer_count (p_rb s)) <= fuel)%nat ->
  exists s',
    for_loop (budget_test left next) (pop_cond_body zero paste) pop_step fuel s
      = Some s' /\
    input (p_rb s') = input (p_rb s) /\
    data_buffer (p_rb s') = data_buffer (p_rb s) /\
    push_callback (p_rb s') = push_callback (p_rb s) /\
    ringbuffer_count (p_rb s') <= ringbuffer_count (p_rb s) /\
    (index_ok (p_rb s) -> index_ok (p_rb s')).
Proof.
  induction fuel as [|fuel IH]; intros s Hfuel.
  - pose proof (count_range (p_rb s)).
    exists (snd (budget_test left next s)). split.
    + apply for_loop_exit, budget_test_stop. right. lia.
    + unfold budget_test; cbn. frame.
  - destruct (fst (budget_test left next s)) eqn:Hgo.
    + rewrite for_loop_iter by exact Hgo.
      apply budget_test_go in Hgo as [_ Hc].
      unfold budget_test; cbn [snd].
      pose proof (count_range (p_rb s)).
      assert (Hstep : forall s2, p_rb s2 = p_rb s ->
        exists s',
          for_loop (budget_test left next) (pop_cond_body zero paste) pop_step
            fuel (pop_step s2) = Some s' /\
          input (p_rb s') = input (p_rb s) /\
          data_buffer (p_rb s') = data_buffer (p_rb s) /\
          push_callback (p_rb s') = push_callback (p_rb s) /\
          ringbuffer_count (p_rb s') <= ringbuffer_count (p_rb s) /\
          (index_ok (p_rb s) -> index_ok (p_rb s'))).
      { intros s2 E.
        destruct (IH (pop_step s2)) as (s' & Hs' & Hi & Hd & Hp & Hn & Hok).
        - rewrite p_rb_pop_step, E, count_inc_output by exact Hc. lia.
        - exists s'. rewrite p_rb_pop_step, E in *.
          rewrite count_inc_output in Hn by exact Hc. cbn in Hi, Hd, Hp.
          frame.
          intros Hk. apply Hok, index_ok_inc_output, Hk. }
      unfold pop_cond_body.
      destruct paste as [[COND BEHAV]|].
      * destruct (COND _).
        -- destruct BEHAV; cbn [ctl_of].
           ++ apply Hstep. reflexivity.
           ++ eexists. split; [reflexivity|]. cbn. frame.
        -- apply Hstep. reflexivity.
      * apply Hstep. reflexivity.
    + exists (snd (budget_test left next s)). split.
      * apply for_loop_exit, Hgo.
      * unfold budget_test; cbn. frame.
Qed.

Lemma never_matches_head paste rb n :
  index_ok rb -> 0 < n -> never_matches paste rb n ->
  forall s, p_rb s = rb ->
  pop_cond_body zero paste s = (Next, copy_oldest zero s).
Proof.
  intros Hok Hn Hnm s E. unfold pop_cond_body.
  destruct paste as [[COND BEHAV]|]; [|reflexivity].
  specialize (Hnm 0 ltac:(lia)). rewrite advance_0 in Hnm by exact Hok.
  rewrite E, Hnm. reflexivity.
Qed.

Lemma never_matches_tail paste rb n :
  never_matches paste rb n -> never_matches paste (inc_output rb) (n - 1).
Proof.
  unfold never_matches. destruct paste as [[COND BEHAV]|]; [|trivial].
  intros Hnm i Hi. rewrite advance_inc_output. apply Hnm. lia.
Qed.

Lemma pop_loop_idle left next paste fuel s :
  fst (budget_test left next s) = false ->
  index_ok (p_rb s) ->
  exists s',
    for_loop (budget_test left next) (pop_cond_body zero paste) pop_step fuel s
      = Some s' /\
    p_rb s' = advance (p_rb s) 0 /\
    p_count s' = p_count s + 0 /\
    forall j,
      p_dest s' j =
        if (p_count s <=? j) && (j <? p_count s + 0)
        then oldest zero (p_rb s) (j - p_count s)
        else p_dest s j.
Proof.
  intros Hgo Hok. exists (snd (budget_test left next s)).
  split; [apply for_loop_exit, Hgo|].
  rewrite advance_0 by exact Hok.
  unfold budget_test; cbn [snd set_limit p_rb p_count p_dest]. frame.
  intros j. replace ((p_count s <=? j) && (j <? p_count s + 0)) with false;
    [reflexivity|].
  symmetry. apply andb_false_iff. rewrite Z.leb_gt, Z.ltb_ge. lia.
Qed.

(** The closed form of a pop loop whose condition holds for none of the
    elements it visits: [n = min (left, count())] elements are copied,
    oldest first, to [dest[count ..]], and only those cells change. *)
Lemma pop_loop_no_match left next paste :
  (forall l, 0 < left l < SIZE_MOD -> left (next l) = left l - 1) ->
  forall fuel s n,
  n = Z.min (left (p_limit s)) (ringbuffer_count (p_rb s)) ->
  0 <= left (p_limit s) < SIZE_MOD ->
  index_ok (p_rb s) ->
  0 <= p_count s ->
  p_count s + n < SIZE_MOD ->
  never_matches paste (p_rb s) n ->
  (Z.to_nat n <= fuel)%nat ->
  exists s',
    for_loop (budget_test left next) (pop_cond_body zero paste) pop_step fuel s
      = Some s' /\
    p_rb s' = advance (p_rb s) n /\
    p_count s' = p_count s + n /\
    forall j,
      p_dest s' j =
        if (p_count s <=? j) && (j <? p_count s + n)
        then oldest zero (p_rb s) (j - p_count s)
        else p_dest s j.
Proof.
  intros Hleft fuel.
  induction fuel as [|fuel IH]; intros s n Hn Hl Hok Hc Hfit Hnm Hfuel;
    pose proof (count_range (p_rb s)) as Hcr;
    destruct (fst (budget_test left next s)) eqn:Hgo.
  - apply budget_test_go in Hgo. lia.
  - assert (E0 : n = 0) by (apply budget_test_stop in Hgo; lia).
    rewrite E0. apply pop_loop_idle; assumption.
  - rewrite for_loop_iter by exact Hgo.
    apply budget_test_go in Hgo as [Hl0 Hc0].
    rewrite (never_matches_head paste (p_rb s) n) by (auto; lia).
    set (s2 := pop_step (copy_oldest zero (snd (budget_test left next s)))).
    destruct (IH s2 (n - 1)) as (s' & Hs' & Hrb & Hcnt & Hdest).
    + subst s2. cbn [p_limit p_rb pop_step copy_oldest budget_test snd set_limit].
      rewrite Hleft, count_inc_output by (auto; lia). lia.
    + subst s2. cbn [p_limit p_rb pop_step copy_oldest budget_test snd set_limit].
      rewrite Hleft by lia. lia.
    + apply index_ok_inc_output, Hok.
    + subst s2. cbn [p_count pop_step copy_oldest budget_test snd set_limit].
      pose proof (to_size_range (p_count s + 1)). lia.
    + subst s2. cbn [p_count pop_step copy_oldest budget_test snd set_limit].
      rewrite to_size_small by lia. lia.
    + apply never_matches_tail, Hnm.
    + lia.
    + exists s'. split; [exact Hs'|].
      subst s2.
      cbn [p_count p_rb p_dest pop_step copy_oldest budget_test snd set_limit]
        in Hrb, Hcnt, Hdest.
      rewrite to_size_small in Hcnt, Hdest by lia.
      rewrite advance_inc_output in Hrb.
      replace (n - 1 + 1) with n in Hrb by lia.
      frame.
      intros j. rewrite Hdest. unfold store.
      rewrite oldest_inc_output.
      destruct (Z.leb_spec (p_count s + 1) j), (Z.leb_spec (p_count s) j),
        (Z.ltb_spec j (p_count s + 1 + (n - 1))), (Z.ltb_spec j (p_count s + n)),
        (Z.eqb_spec j (p_count s)); cbn; try lia; try reflexivity.
      * f_equal. lia.
      * subst j. rewrite Z.sub_diag, oldest_0 by exact Hok. reflexivity.
  - assert (E0 : n = 0) by (apply budget_test_stop in Hgo; lia).
    rewrite E0. apply pop_loop_idle; assumption.
Qed.

End PopLoops.

(** ** The pop functions as a whole *)

Section PopProperties.

Context {T : Type}.
Variable zero : T.
Implicit Types (rb : ring_buffer T) (dest : Z -> T).

Lemma count_advance rb n :
  0 <= n <= ringbuffer_count rb ->
  ringbuffer_count (advance rb n) = ringbuffer_count rb - n.
Proof.
  intros Hn. pose proof (count_range rb) as Hc.
  unfold ringbuffer_count in *; cbn.
  rewrite to_index_sub_r.
  replace (input rb - (output rb + n)) with (input rb - output rb - n) by lia.
  rewrite <- to_index_sub_l. apply to_index_small. lia.
Qed.

Lemma pop_cstring_is_cond_none rb dest limit :
  ringbuffer_pop_cstring zero rb dest limit =
  ringbuffer_pop_cstring_cond zero None rb dest limit.
Proof. reflexivity. Qed.

Lemma pop_string_closed rb dest limit :
  index_ok rb -> 0 <= limit < SIZE_MOD ->
  exists r,
    ringbuffer_pop_string zero rb dest limit = Some r /\
    transferred r = Z.min limit (ringbuffer_count rb) /\
    rb_after r = advance rb (transferred r) /\
    forall j,
      dest_after r j =
        if (0 <=? j) && (j <? transferred r) then oldest zero rb j else dest j.
Proof.
  intros Hok Hl. pose proof (count_range rb) as Hc.
  pose proof INDEX_MOD_le_SIZE_MOD.
  unfold ringbuffer_pop_string.
  destruct (ringbuffer_empty rb) eqn:He.
  - apply empty_iff in He. eexists. split; [reflexivity|]. cbn.
    rewrite He, Z.min_r by lia. rewrite advance_0 by exact Hok. frame.
    intros j. destruct (Z.leb_spec 0 j), (Z.ltb_spec j 0); cbn;
      try reflexivity; lia.
  - change (@pop_body T zero) with (pop_cond_body zero None).
    rewrite pop_string_test_budget.
    destruct (pop_loop_no_match zero (fun l => l) (fun l => to_size (l - 1)) None)
      with (fuel := pop_fuel rb) (s := pop_enter rb dest limit)
           (n := Z.min limit (ringbuffer_count rb))
      as (s' & Hs' & Hrb & Hcnt & Hdest);
      cbn [pop_enter p_limit p_rb p_count p_dest]; try (exact I || lia || assumption).
    + intros l Hl'. apply to_size_small. lia.
    + unfold pop_fuel. lia.
    + rewrite Hs'. eexists. split; [reflexivity|].
      cbn [pop_enter p_limit p_rb p_count p_dest] in Hrb, Hcnt, Hdest.
      cbn [pop_return transferred rb_after dest_after].
      rewrite Hcnt, Hrb. frame.
      intros j. rewrite Hdest. cbn. rewrite Z.sub_0_r. reflexivity.
Qed.

Lemma pop_cstring_cond_closed paste rb dest limit :
  index_ok rb -> ringbuffer_empty rb = false ->
  never_matches paste rb (Z.min (to_size (limit - 1)) (ringbuffer_count rb)) ->
  exists r,
    ringbuffer_pop_cstring_cond zero paste rb dest limit = Some r /\
    transferred r = Z.min (to_size (limit - 1)) (ringbuffer_count rb) /\
    rb_after r = advance rb (transferred r) /\
    forall j,
      dest_after r j =
        if (0 <=? j) && (j <? transferred r) then oldest zero rb j
        else if j =? transferred r then zero else dest j.
Proof.
  intros Hok He Hnm. pose proof (count_range rb) as Hc.
  pose proof INDEX_MOD_le_SIZE_MOD. pose proof (to_size_range (limit - 1)).
  unfold ringbuffer_pop_cstring_cond, pop_cstring_cond_loop. rewrite He.
  rewrite pop_cstring_test_budget.
  destruct (pop_loop_no_match zero (fun l => to_size (l - 1))
              (fun l => to_size (l - 1)) paste)
    with (fuel := pop_fuel rb) (s := pop_enter rb dest limit)
         (n := Z.min (to_size (limit - 1)) (ringbuffer_count rb))
    as (s' & Hs' & Hrb & Hcnt & Hdest);
    cbn [pop_enter p_limit p_rb p_count p_dest]; try (lia || assumption).
  - intros l Hl'. apply to_size_small. lia.
  - unfold pop_fuel. lia.
  - rewrite Hs'. eexists. split; [reflexivity|].
    cbn [pop_enter p_limit p_rb p_count p_dest] in Hrb, Hcnt, Hdest.
    cbn [pop_return terminate transferred rb_after dest_after p_rb p_count p_dest].
    rewrite Z.add_0_l in Hcnt, Hdest.
    rewrite Hcnt, Hrb. frame.
    intros j. unfold store. rewrite Hdest, Z.sub_0_r.
    destruct (Z.eqb_spec j (Z.min (to_size (limit - 1)) (ringbuffer_count rb)))
      as [->|Hne].
    + rewrite Z.ltb_irrefl, andb_false_r. reflexivity.
    + reflexivity.
Qed.

(** Reading the closed form below, at and above the copied cells. *)
Lemma closed_form_cells (f g : Z -> T) (n : Z) (t : T) (dest : Z -> T) :
  (forall j, f j = if (0 <=? j) && (j <? n) then g j
                   else if j =? n then t else dest j) ->
  0 <= n ->
  (forall i, 0 <= i < n -> f i = g i) /\
  f n = t /\
  (forall i, ~ 0 <= i <= n -> f i = dest i).
Proof.
  intros Hf Hn. repeat split.
  - intros i Hi. rewrite Hf.
    destruct (Z.leb_spec 0 i), (Z.ltb_spec i n); cbn; try reflexivity; lia.
  - rewrite Hf, Z.ltb_irrefl, andb_false_r, Z.eqb_refl. reflexivity.
  - intros i Hi. rewrite Hf.
    destruct (Z.leb_spec 0 i), (Z.ltb_spec i n), (Z.eqb_spec i n); cbn;
      try reflexivity; lia.
Qed.

(** C7: [pop_string] returns [min (limit, count())]; that many elements are
    copied to [dest[0 ..]], oldest first and each as stored; every other
    cell of [dest] keeps its value (no terminator); [output] has advanced
    by the number returned, and [input] and the storage are untouched. *)
Theorem pop_string_copies_min_of_limit_and_count rb dest limit :
  index_ok rb -> 0 <= limit < SIZE_MOD ->
  exists r,
    ringbuffer_pop_string zero rb dest limit = Some r /\
    transferred r = Z.min limit (ringbuffer_count rb) /\
    (forall i, 0 <= i < transferred r -> dest_after r i = oldest zero rb i) /\
    (forall i, ~ 0 <= i < transferred r -> dest_after r i = dest i) /\
    output (rb_after r) = to_index (output rb + transferred r) /\
    input (rb_after r) = input rb /\
    data_buffer (rb_after r) = data_buffer rb /\
    push_callback (rb_after r) = push_callback rb /\
    ringbuffer_count (rb_after r) = ringbuffer_count rb - transferred r.
Proof.
  intros Hok Hl. pose proof (count_range rb) as Hc.
  destruct (pop_string_closed rb dest limit Hok Hl) as (r & Hr & Hn & Hrb & Hd).
  exists r. split; [exact Hr|]. split; [exact Hn|].
  rewrite Hrb, count_advance by lia.
  cbn [advance set_output with_cells cells input output data_buffer
       push_callback].
  frame.
  - intros i Hi. rewrite Hd.
    destruct (Z.leb_spec 0 i), (Z.ltb_spec i (transferred r)); cbn;
      try reflexivity; lia.
  - intros i Hi. rewrite Hd.
    destruct (Z.leb_spec 0 i), (Z.ltb_spec i (transferred r)); cbn;
      try reflexivity; lia.
Qed.

Lemma pop_cstring_nonempty rb dest limit :
  index_ok rb -> ringbuffer_empty rb = false ->
  exists r,
    ringbuffer_pop_cstring zero rb dest limit = Some r /\
    transferred r = Z.min (to_size (limit - 1)) (ringbuffer_count rb) /\
    (forall i, 0 <= i < transferred r -> dest_after r i = oldest zero rb i) /\
    dest_after r (transferred r) = zero /\
    (forall i, ~ 0 <= i <= transferred r -> dest_after r i = dest i) /\
    rb_after r = advance rb (transferred r).
Proof.
  intros Hok He. pose proof (count_range rb) as Hc.
  pose proof (to_size_range (limit - 1)).
  rewrite pop_cstring_is_cond_none.
  destruct (pop_cstring_cond_closed None rb dest limit Hok He I)
    as (r & Hr & Hn & Hrb & Hd).
  exists r. split; [exact Hr|]. split; [exact Hn|].
  destruct (closed_form_cells _ _ _ _ _ Hd) as (H1 & H2 & H3); [lia|].
  frame.
Qed.

(** [pop_cstring] on a non-empty buffer transfers
    [min (limit - 1, count())] elements, oldest first, [limit - 1] being a
    [size_t] (so at most [limit - 1] elements for [limit >= 1]), and then
    writes the terminator at [dest[count_transferred]]; on an empty buffer
    it returns 0 and leaves [dest] as it was.  On a buffer holding
    [a, b, c, d] and with limit 3 it transfers [a] and [b] and writes the
    terminator at [dest[2]]. *)
Theorem pop_cstring_reserves_last_cell_for_terminator :
  (forall rb dest limit,
     index_ok rb -> ringbuffer_empty rb = false -> 0 <= limit < SIZE_MOD ->
     exists r,
       ringbuffer_pop_cstring zero rb dest limit = Some r /\
       transferred r = Z.min (to_size (limit - 1)) (ringbuffer_count rb) /\
       (1 <= limit -> transferred r <= limit - 1) /\
       (forall i, 0 <= i < transferred r -> dest_after r i = oldest zero rb i) /\
       dest_after r (transferred r) = zero /\
       (forall i, ~ 0 <= i <= transferred r -> dest_after r i = dest i) /\
       rb_after r = advance rb (transferred r)) /\
  (forall rb dest limit,
     ringbuffer_empty rb = true ->
     ringbuffer_pop_cstring zero rb dest limit = Some (PopResult 0 rb dest)) /\
  (forall (a b c d : T) rb dest,
     index_ok rb -> ringbuffer_count rb = 4 ->
     oldest zero rb 0 = a -> oldest zero rb 1 = b ->
     oldest zero rb 2 = c -> oldest zero rb 3 = d ->
     exists r,
       ringbuffer_pop_cstring zero rb dest 3 = Some r /\
       transferred r = 2 /\
       dest_after r 0 = a /\ dest_after r 1 = b /\ dest_after r 2 = zero /\
       ringbuffer_count (rb_after r) = 2).
Proof.
  split; [|split].
  - intros rb dest limit Hok He Hl.
    destruct (pop_cstring_nonempty rb dest limit Hok He)
      as (r & Hr & Hn & H1 & H2 & H3 & H4).
    exists r. frame.
    intros Hl1. rewrite Hn, to_size_small by lia. lia.
  - intros rb dest limit He. unfold ringbuffer_pop_cstring. rewrite He.
    reflexivity.
  - intros a b c d rb dest Hok Hc Ha Hb _ _.
    assert (He : ringbuffer_empty rb = false) by (apply empty_false_iff; lia).
    destruct (pop_cstring_nonempty rb dest 3 Hok He)
      as (r & Hr & Hn & H1 & H2 & H3 & H4).
    rewrite Hc in Hn. change (Z.min (to_size (3 - 1)) 4) with 2 in Hn.
    exists r. rewrite Hn in *. rewrite H4, count_advance by lia.
    rewrite !H1 by lia. frame.
Qed.

(** On a non-empty buffer [pop_cstring_cond] returns with the terminator
    written at [dest[count_transferred]], whatever the limit, the condition
    and its action; on an empty buffer it returns 0 at once and writes
    nothing to [dest]. *)
Theorem pop_cstring_cond_terminator_unless_empty paste rb dest limit :
  (ringbuffer_empty rb = false ->
   exists r,
     ringbuffer_pop_cstring_cond zero paste rb dest limit = Some r /\
     dest_after r (transferred r) = zero) /\
  (ringbuffer_empty rb = true ->
   ringbuffer_pop_cstring_cond zero paste rb dest limit
     = Some (PopResult 0 rb dest)).
Proof.
  unfold ringbuffer_pop_cstring_cond, pop_cstring_cond_loop.
  split; intros He; rewrite He; [|reflexivity].
  rewrite pop_cstring_test_budget.
  destruct (pop_loop_terminates zero (fun l => to_size (l - 1))
              (fun l => to_size (l - 1)) paste (pop_fuel rb)
              (pop_enter rb dest limit)) as (s' & Hs' & _).
  { unfold pop_fuel. cbn. lia. }
  rewrite Hs'. eexists. split; [reflexivity|].
  cbn. unfold store. rewrite Z.eqb_refl. reflexivity.
Qed.

(** C10, as amended: with [limit == 0] on a non-empty buffer, the
    pre-decrement wraps to [SIZE_MAX] and the limit stops nothing:
    [pop_cstring] copies all [count()] elements and writes the terminator
    at [dest[count()]], and so does [pop_cstring_cond] when its condition
    holds for none of the buffered elements. *)
Theorem limit_zero_wraps_and_drains paste rb dest :
  index_ok rb -> ringbuffer_empty rb = false ->
  to_size (0 - 1) = SIZE_MAX /\
  (exists r, ringbuffer_pop_cstring zero rb dest 0 = Some r /\
             drained zero rb dest r) /\
  (never_matches paste rb (ringbuffer_count rb) ->
   exists r, ringbuffer_pop_cstring_cond zero paste rb dest 0 = Some r /\
             drained zero rb dest r).
Proof.
  intros Hok He. pose proof (count_range rb) as Hc.
  assert (Hmin : Z.min (to_size (0 - 1)) (ringbuffer_count rb)
                 = ringbuffer_count rb).
  { change (to_size (0 - 1)) with (SIZE_MOD - 1).
    pose proof INDEX_MOD_le_SIZE_MOD. lia. }
  assert (Hall : forall paste', never_matches paste' rb (ringbuffer_count rb) ->
    exists r, ringbuffer_pop_cstring_cond zero paste' rb dest 0 = Some r /\
              drained zero rb dest r).
  { intros paste' Hnm.
    destruct (pop_cstring_cond_closed paste' rb dest 0 Hok He)
      as (r & Hr & Hn & Hrb & Hd).
    - rewrite Hmin. exact Hnm.
    - rewrite Hmin in Hn. rewrite Hn in *.
      destruct (closed_form_cells _ _ _ _ _ Hd) as (H1 & H2 & H3); [lia|].
      exists r. split; [exact Hr|]. unfold drained. frame.
      rewrite Hrb. apply empty_iff. rewrite count_advance by lia. lia. }
  split; [reflexivity|]. split.
  - rewrite pop_cstring_is_cond_none. apply Hall. exact I.
  - apply Hall.
Qed.

End PopProperties.

(** ** One iteration of the conditional loop *)

Ltac size_small :=
  repeat match goal with
         | |- context [to_size ?z] => rewrite (to_size_small z) by lia
         end.

Section CondLoop.

Context {T : Type}.
Variable zero : T.
Implicit Types (s : pop_frame T) (paste : option ((ring_buffer T -> bool) * on_match)).

Lemma pop_cstring_test_go s :
  to_size (p_limit s - 1) <> 0 -> ringbuffer_count (p_rb s) <> 0 ->
  fst (pop_cstring_test s) = true.
Proof.
  intros Hl Hc. rewrite pop_cstring_test_budget. apply budget_test_go. auto.
Qed.

Lemma cond_loop_stop paste fuel s :
  to_size (p_limit s - 1) = 0 \/ ringbuffer_count (p_rb s) = 0 ->
  pop_cstring_cond_loop zero paste fuel s
    = Some (set_limit s (to_size (p_limit s - 1))).
Proof.
  intros H. unfold pop_cstring_cond_loop. rewrite for_loop_exit; [reflexivity|].
  rewrite pop_cstring_test_budget. apply budget_test_stop. exact H.
Qed.

Lemma cond_loop_copy paste fuel s :
  to_size (p_limit s - 1) <> 0 -> ringbuffer_count (p_rb s) <> 0 ->
  match paste with Some (COND, _) => COND (p_rb s) = false | None => True end ->
  pop_cstring_cond_loop zero paste (S fuel) s =
  pop_cstring_cond_loop zero paste fuel
    {| p_rb := inc_output (p_rb s);
       p_dest := store (p_dest s) (p_count s) (RINGBUF_CURR_o zero (p_rb s));
       p_count := to_size (p_count s + 1);
       p_limit := to_size (p_limit s - 1) |}.
Proof.
  intros Hl Hc Hp. unfold pop_cstring_cond_loop.
  rewrite for_loop_iter by (apply pop_cstring_test_go; assumption).
  unfold pop_cond_body. cbn [pop_cstring_test snd set_limit p_rb].
  destruct paste as [[COND BEHAV]|]; [rewrite Hp|]; reflexivity.
Qed.

Lemma cond_loop_skip (p : T -> bool) fuel s :
  to_size (p_limit s - 1) <> 0 -> ringbuffer_count (p_rb s) <> 0 ->
  p (RINGBUF_CURR_o zero (p_rb s)) = true ->
  pop_cstring_cond_loop zero (Some (on_oldest zero p, skip)) (S fuel) s =
  pop_cstring_cond_loop zero (Some (on_oldest zero p, skip)) fuel
    {| p_rb := inc_output (p_rb s);
       p_dest := p_dest s;
       p_count := p_count s;
       p_limit := to_size (p_limit s - 1) |}.
Proof.
  intros Hl Hc Hp. unfold pop_cstring_cond_loop.
  rewrite for_loop_iter by (apply pop_cstring_test_go; assumption).
  unfold pop_cond_body, on_oldest. cbn [pop_cstring_test snd set_limit p_rb].
  rewrite Hp. reflexivity.
Qed.

Lemma cond_loop_halt (p : T -> bool) fuel s :
  to_size (p_limit s - 1) <> 0 -> ringbuffer_count (p_rb s) <> 0 ->
  p (RINGBUF_CURR_o zero (p_rb s)) = true ->
  pop_cstring_cond_loop zero (Some (on_oldest zero p, halt)) (S fuel) s =
  Some {| p_rb := p_rb s;
          p_dest := p_dest s;
          p_count := p_count s;
          p_limit := to_size (p_limit s - 1) |}.
Proof.
  intros Hl Hc Hp. unfold pop_cstring_cond_loop.
  rewrite for_loop_iter by (apply pop_cstring_test_go; assumption).
  unfold pop_cond_body, on_oldest. cbn [pop_cstring_test snd set_limit p_rb].
  rewrite Hp. reflexivity.
Qed.

End CondLoop.

(** The header's example: skip, or stop at, the elements equal to zero. *)
Lemma skip_zero_example dest limit :
  4 <= limit < SIZE_MOD ->
  exists r,
    ringbuffer_pop_cstring_cond 0 (Some (on_oldest 0 (Z.eqb 0), skip))
      (int_buffer 3 0 [1; 0; 2; 0]) dest limit = Some r /\
    transferred r = 2 /\
    dest_after r 0 = 1 /\ dest_after r 1 = 2 /\ dest_after r 2 = 0 /\
    output (rb_after r) = 3 /\ ringbuffer_count (rb_after r) = 0.
Proof.
  intros Hl. unfold ringbuffer_pop_cstring_cond.
  change (ringbuffer_empty (int_buffer 3 0 [1; 0; 2; 0])) with false.
  change (pop_fuel (int_buffer 3 0 [1; 0; 2; 0])) with 3%nat.
  cbn iota.
  rewrite cond_loop_copy;
    cbn [p_rb p_dest p_count p_limit pop_enter];
    [ | size_small; lia | discriminate | reflexivity ].
  rewrite cond_loop_skip;
    cbn [p_rb p_dest p_count p_limit pop_enter];
    [ | size_small; lia | discriminate | reflexivity ].
  rewrite cond_loop_copy;
    cbn [p_rb p_dest p_count p_limit pop_enter];
    [ | size_small; lia | discriminate | reflexivity ].
  rewrite cond_loop_stop by (right; reflexivity).
  eexists. split; [reflexivity|].
  repeat split; reflexivity.
Qed.

Lemma halt_zero_example dest limit :
  3 <= limit < SIZE_MOD ->
  exists r,
    ringbuffer_pop_cstring_cond 0 (Some (on_oldest 0 (Z.eqb 0), halt))
      (int_buffer 3 0 [1; 0; 2; 0]) dest limit = Some r /\
    transferred r = 1 /\
    dest_after r 0 = 1 /\ dest_after r 1 = 0 /\
    output (rb_after r) = 1 /\ ringbuffer_count (rb_after r) = 2 /\
    oldest 0 (rb_after r) 0 = 0.
Proof.
  intros Hl. unfold ringbuffer_pop_cstring_cond.
  change (ringbuffer_empty (int_buffer 3 0 [1; 0; 2; 0])) with false.
  change (pop_fuel (int_buffer 3 0 [1; 0; 2; 0])) with 3%nat.
  cbn iota.
  rewrite cond_loop_copy;
    cbn [p_rb p_dest p_count p_limit pop_enter];
    [ | size_small; lia | discriminate | reflexivity ].
  rewrite cond_loop_halt;
    cbn [p_rb p_dest p_count p_limit pop_enter];
    [ | size_small; lia | discriminate | reflexivity ].
  eexists. split; [reflexivity|].
  repeat split; reflexivity.
Qed.

(** C9: when the condition holds for the current oldest element, [skip]
    goes on with the loop after consuming that element ([output] advanced)
    without copying it ([dest] and the count of copies unchanged), and
    [halt] ends the loop at once with the buffer, [dest] and the count as
    they were.  With the condition "equals zero" on a buffer holding
    [1, 0, 2]: [skip] yields [1, 2] and the terminator and consumes all
    three elements; [halt] yields [1] and the terminator and leaves the
    zero as the oldest element. *)
Theorem cond_skip_consumes_and_halt_stops :
  (forall (T : Type) (zero : T) (p : T -> bool) fuel (s : pop_frame T),
     to_size (p_limit s - 1) <> 0 -> ringbuffer_count (p_rb s) <> 0 ->
     p (RINGBUF_CURR_o zero (p_rb s)) = true ->
     pop_cstring_cond_loop zero (Some (on_oldest zero p, skip)) (S fuel) s =
       pop_cstring_cond_loop zero (Some (on_oldest zero p, skip)) fuel
         {| p_rb := inc_output (p_rb s);
            p_dest := p_dest s;
            p_count := p_count s;
            p_limit := to_size (p_limit s - 1) |} /\
     pop_cstring_cond_loop zero (Some (on_oldest zero p, halt)) (S fuel) s =
       Some {| p_rb := p_rb s;
               p_dest := p_dest s;
               p_count := p_count s;
               p_limit := to_size (p_limit s - 1) |}) /\
  (forall dest limit, 4 <= limit < SIZE_MOD ->
     exists r,
       ringbuffer_pop_cstring_cond 0 (Some (on_oldest 0 (Z.eqb 0), skip))
         (int_buffer 3 0 [1; 0; 2; 0]) dest limit = Some r /\
       transferred r = 2 /\
       dest_after r 0 = 1 /\ dest_after r 1 = 2 /\ dest_after r 2 = 0 /\
       output (rb_after r) = 3 /\ ringbuffer_count (rb_after r) = 0) /\
  (forall dest limit, 3 <= limit < SIZE_MOD ->
     exists r,
       ringbuffer_pop_cstring_cond 0 (Some (on_oldest 0 (Z.eqb 0), halt))
         (int_buffer 3 0 [1; 0; 2; 0]) dest limit = Some r /\
       transferred r = 1 /\
       dest_after r 0 = 1 /\ dest_after r 1 = 0 /\
       output (rb_after r) = 1 /\ ringbuffer_count (rb_after r) = 2 /\
       oldest 0 (rb_after r) 0 = 0).
Proof.
  split; [|split].
  - intros T zero p fuel s Hl Hc Hp. split.
    + apply cond_loop_skip; assumption.
    + apply cond_loop_halt; assumption.
  - exact skip_zero_example.
  - exact halt_zero_example.
Qed.

(** ** [push_string] as written *)

Section PushString.

Context {T : Type}.
Variable zero : T.
Implicit Types (rb : ring_buffer T) (src : list T).

Lemma BUFFER_LEN_store rb v :
  BUFFER_LEN (RINGBUF_CURR_i_store rb v) = BUFFER_LEN rb.
Proof.
  unfold BUFFER_LEN, ARRAY_COUNT; cbn. rewrite length_insert. reflexivity.
Qed.




End PushString.

(** C1: the loop of [push_string] goes on while the buffer IS full, so an
    empty buffer of capacity 8 given [1, 2, 3, 4] accepts nothing: the call
    returns 0 and the buffer is as it was, where the claim has 4 elements
    transferred. *)
Theorem push_string_into_empty_buffer_transfers_nothing :
  ringbuffer_full (int_buffer 0 0 [0; 0; 0; 0; 0; 0; 0; 0]) = false /\
  ringbuffer_push_string 0 (int_buffer 0 0 [0; 0; 0; 0; 0; 0; 0; 0]) [1; 2; 3; 4] 4
    = Some (0, int_buffer 0 0 [0; 0; 0; 0; 0; 0; 0; 0]) /\
  Z.min 4 (8 - ringbuffer_count (int_buffer 0 0 [0; 0; 0; 0; 0; 0; 0; 0])) = 4.
Proof. repeat split. Qed.

(** C2: a buffer of capacity 2, freshly initialised and filled by two
    [push_front] calls, satisfies the invariant; [push_string] of one
    element then stores it over the oldest element and leaves
    [count() = 3 > 2]. *)
Theorem push_string_on_full_buffer_breaks_count_bound :
  let rb0 := ringbuffer_init (int_buffer 7 5 [0; 0]) None in
  let rb1 := snd (ringbuffer_push_front rb0 1) in
  let rb2 := snd (ringbuffer_push_front rb1 2) in
  rb2 = int_buffer 2 0 [1; 2] /\
  count_ok rb2 /\
  ringbuffer_push_string 0 rb2 [9] 1 = Some (1, int_buffer 3 0 [9; 2]) /\
  ringbuffer_count (int_buffer 3 0 [9; 2]) = 3 /\
  BUFFER_LEN (int_buffer 3 0 [9; 2]) = 2 /\
  ~ count_ok (int_buffer 3 0 [9; 2]).
Proof.
  cbv zeta. split; [reflexivity|]. split; [split; now vm_compute|].
  split; [reflexivity|]. split; [reflexivity|]. split; [reflexivity|].
  intros [_ H]. apply H. reflexivity.
Qed.

(** ** The count bound *)

Section CountBound.

Context {T : Type}.
Variable zero : T.
Implicit Types (rb : ring_buffer T) (dest : Z -> T).

Lemma count_ok_shrunk (c c' : ring_cells T) :
  count_ok c ->
  data_buffer c' = data_buffer c ->
  ringbuffer_count c' <= ringbuffer_count c ->
  count_ok c'.
Proof.
  unfold count_ok, BUFFER_LEN. intros [_ H] -> Hle.
  pose proof (count_range c'). lia.
Qed.

Lemma count_ok_grown (c c' : ring_cells T) :
  count_ok c -> ringbuffer_full c = false ->
  BUFFER_LEN c' = BUFFER_LEN c ->
  ringbuffer_count c' = to_index (ringbuffer_count c + 1) ->
  count_ok c'.
Proof.
  unfold count_ok. intros [H0 H] Hf -> ->.
  assert (ringbuffer_count c <> BUFFER_LEN c).
  { intros E. apply full_iff in E. congruence. }
  pose proof (to_index_range (ringbuffer_count c + 1)).
  pose proof (Z.mod_le (ringbuffer_count c + 1) INDEX_MOD ltac:(lia) INDEX_MOD_pos).
  unfold to_index in *. lia.
Qed.

Lemma count_ok_push_front rb v :
  count_ok rb -> callback_keeps_cursors rb -> callback_keeps_capacity rb ->
  count_ok (snd (ringbuffer_push_front rb v)).
Proof.
  intros Hinv Hcur Hcap.
  destruct (ringbuffer_full rb) eqn:Hf.
  { unfold ringbuffer_push_front. rewrite Hf. exact Hinv. }
  rewrite push_front_not_full by exact Hf.
  destruct (push_callback rb) as [cb|] eqn:Hp.
  - destruct (Hcur cb Hp (cells rb) v) as [Hi Ho].
    specialize (Hcap cb Hp (cells rb) v).
    destruct (cb (cells rb) v) as [ok c]. cbn in Hi, Ho, Hcap |- *.
    destruct ok; cbn.
    + apply (count_ok_grown rb); auto.
      * unfold BUFFER_LEN, ARRAY_COUNT; cbn. congruence.
      * unfold ringbuffer_count; cbn. rewrite Hi, Ho.
        rewrite to_index_sub_l, to_index_add_l. f_equal. lia.
    + unfold count_ok, ringbuffer_count, BUFFER_LEN, ARRAY_COUNT in *; cbn.
      rewrite Hi, Ho, Hcap. exact Hinv.
  - cbn. apply (count_ok_grown rb); auto.
    + apply (BUFFER_LEN_store rb v).
    + apply (count_inc_input (RINGBUF_CURR_i_store rb v)).
Qed.

Lemma count_ok_pop_back rb :
  count_ok rb -> count_ok (snd (ringbuffer_pop_back rb)).
Proof.
  intros Hinv. unfold ringbuffer_pop_back.
  destruct (ringbuffer_empty rb) eqn:He; cbn [snd]; [exact Hinv|].
  apply (count_ok_shrunk rb); auto.
  rewrite count_inc_output by (apply empty_false_iff, He). lia.
Qed.

Lemma count_ok_pop_loop left next paste rb dest limit :
  count_ok rb ->
  exists s,
    for_loop (budget_test left next) (pop_cond_body zero paste) pop_step
      (pop_fuel rb) (pop_enter rb dest limit) = Some s /\
    count_ok (p_rb s).
Proof.
  intros Hinv.
  destruct (pop_loop_terminates zero left next paste (pop_fuel rb)
              (pop_enter rb dest limit)) as (s & Hs & _ & Hd & _ & Hn & _).
  { unfold pop_fuel. cbn. lia. }
  exists s. split; [exact Hs|]. apply (count_ok_shrunk rb); assumption.
Qed.

(** Every operation other than [push_string] keeps [0 <= count() <= N]:
    [push_front] (with a strategy that keeps to its contract), [pop_back],
    [peek], [pop_string], [pop_cstring] and [pop_cstring_cond]; and the
    buffer [init] leaves satisfies it. *)
Theorem count_bound_kept_by_all_but_push_string rb :
  count_ok rb ->
  (forall cb, count_ok (ringbuffer_init rb cb)) /\
  (forall v, callback_keeps_cursors rb -> callback_keeps_capacity rb ->
             count_ok (snd (ringbuffer_push_front rb v))) /\
  count_ok (snd (ringbuffer_pop_back rb)) /\
  (forall offset, count_ok (snd (ringbuffer_peek rb offset))) /\
  (forall dest limit, exists r,
     ringbuffer_pop_string zero rb dest limit = Some r /\ count_ok (rb_after r)) /\
  (forall dest limit, exists r,
     ringbuffer_pop_cstring zero rb dest limit = Some r /\ count_ok (rb_after r)) /\
  (forall paste dest limit, exists r,
     ringbuffer_pop_cstring_cond zero paste rb dest limit = Some r /\
     count_ok (rb_after r)).
Proof.
  intros Hinv.
  assert (Hcond : forall paste dest limit, exists r,
     ringbuffer_pop_cstring_cond zero paste rb dest limit = Some r /\
     count_ok (rb_after r)).
  { intros paste dest limit.
    unfold ringbuffer_pop_cstring_cond, pop_cstring_cond_loop.
    destruct (ringbuffer_empty rb); [eexists; split; [reflexivity|exact Hinv]|].
    rewrite pop_cstring_test_budget.
    destruct (count_ok_pop_loop (fun l => to_size (l - 1))
                (fun l => to_size (l - 1)) paste rb dest limit Hinv)
      as (s & Hs & Hok).
    rewrite Hs. eexists. split; [reflexivity|exact Hok]. }
  repeat match goal with |- _ /\ _ => split end.
  - intros cb. destruct Hinv as [_ H]. unfold count_ok in *.
    change (ringbuffer_count (ringbuffer_init rb cb)) with 0.
    change (BUFFER_LEN (ringbuffer_init rb cb)) with (BUFFER_LEN rb).
    pose proof (count_range rb). lia.
  - intros v. apply count_ok_push_front, Hinv.
  - apply count_ok_pop_back, Hinv.
  - intros offset. unfold ringbuffer_peek.
    destruct (ringbuffer_count rb >? offset); exact Hinv.
  - intros dest limit. unfold ringbuffer_pop_string.
    destruct (ringbuffer_empty rb); [eexists; split; [reflexivity|exact Hinv]|].
    change (@pop_body T zero) with (pop_cond_body zero None).
    rewrite pop_string_test_budget.
    destruct (count_ok_pop_loop (fun l => l) (fun l => to_size (l - 1)) None
                rb dest limit Hinv) as (s & Hs & Hok).
    rewrite Hs. eexists. split; [reflexivity|exact Hok].
  - intros dest limit. rewrite pop_cstring_is_cond_none. apply Hcond.
  - exact Hcond.
Qed.


End CountBound.

(** A freshly initialised buffer of capacity at least one is empty and not
    full. *)
Theorem init_gives_empty_buffer {T : Type} (rb : ring_buffer T) cb :
  1 <= BUFFER_LEN rb ->
  ringbuffer_count (ringbuffer_init rb cb) = 0 /\
  ringbuffer_empty (ringbuffer_init rb cb) = true /\
  ringbuffer_full (ringbuffer_init rb cb) = false /\
  push_callback (ringbuffer_init rb cb) = cb /\
  data_buffer (ringbuffer_init rb cb) = data_buffer rb.
Proof.
  intros HN. repeat split.
  unfold ringbuffer_full.
  change (ringbuffer_count (ringbuffer_init rb cb)) with 0.
  change (BUFFER_LEN (ringbuffer_init rb cb)) with (BUFFER_LEN rb).
  apply Z.eqb_neq. lia.
Qed.

(** ** Concrete runs *)

(** C3: on an empty buffer [pop_cstring_cond] returns 0 before its loop
    and before the store of the terminator: [dest[0]] still holds the 7 it
    held before the call, where the claim (and the header's note that the
    output is null-terminated) has the terminator. *)
Theorem pop_cstring_cond_on_empty_buffer_writes_no_terminator :
  ringbuffer_empty (int_buffer 0 0 [0; 0; 0; 0]) = true /\
  exists r,
    ringbuffer_pop_cstring_cond 0 (Some (on_oldest 0 (Z.eqb 0), skip))
      (int_buffer 0 0 [0; 0; 0; 0]) (fun _ => 7) 4 = Some r /\
    transferred r = 0 /\
    dest_after r (transferred r) = 7 /\
    dest_after r (transferred r) <> 0.
Proof.
  split; [reflexivity|]. eexists. split; [reflexivity|].
  cbn. repeat split; discriminate.
Qed.

(** C8: on an empty buffer [pop_cstring] with limit 3 returns 0 before the
    store of the terminator, and [dest[0]] still holds the 7 it held before
    the call; and with limit 0 on a buffer holding [1, 2, 3, 4] it
    transfers all four elements, not at most [limit - 1]. *)
Theorem pop_cstring_on_empty_buffer_writes_no_terminator :
  ringbuffer_empty (int_buffer 0 0 [0; 0; 0; 0]) = true /\
  (exists r,
     ringbuffer_pop_cstring 0 (int_buffer 0 0 [0; 0; 0; 0]) (fun _ => 7) 3
       = Some r /\
     transferred r = 0 /\
     dest_after r (transferred r) = 7 /\
     dest_after r (transferred r) <> 0) /\
  (exists r,
     ringbuffer_pop_cstring 0 (int_buffer 4 0 [1; 2; 3; 4; 0; 0; 0; 0])
       (fun _ => 7) 0 = Some r /\
     transferred r = 4 /\
     view (dest_after r) 6 = [1; 2; 3; 4; 0; 7]).
Proof.
  split; [reflexivity|]. split.
  - eexists. split; [reflexivity|]. cbn. repeat split; discriminate.
  - eexists. split; [reflexivity|]. split; reflexivity.
Qed.

(** C10, the claim as stated: [limit == 0] on a buffer holding [1, 0, 2].
    Skipping zeros, only two of the three elements reach [dest], the
    terminator is at [dest[2]] and [dest[3]] is not written; halting at
    ones, nothing is transferred. *)
Lemma limit_zero_with_matching_condition_does_not_drain :
  ringbuffer_empty (int_buffer 3 0 [1; 0; 2; 0]) = false /\
  ringbuffer_count (int_buffer 3 0 [1; 0; 2; 0]) = 3 /\
  (exists r,
     ringbuffer_pop_cstring_cond 0 (Some (on_oldest 0 (Z.eqb 0), skip))
       (int_buffer 3 0 [1; 0; 2; 0]) (fun _ => 7) 0 = Some r /\
     transferred r = 2 /\
     view (dest_after r) 4 = [1; 2; 0; 7] /\
     ~ drained 0 (int_buffer 3 0 [1; 0; 2; 0]) (fun _ => 7) r) /\
  (exists r,
     ringbuffer_pop_cstring_cond 0 (Some (on_oldest 0 (Z.eqb 1), halt))
       (int_buffer 3 0 [1; 0; 2; 0]) (fun _ => 7) 0 = Some r /\
     transferred r = 0 /\
     ringbuffer_count (rb_after r) = 3).
Proof.
  split; [reflexivity|]. split; [reflexivity|]. split.
  - eexists. split; [reflexivity|]. split; [reflexivity|].
    split; [reflexivity|].
    intros (H & _). discriminate H.
  - eexists. split; [reflexivity|]. split; reflexivity.
Qed.

(** C4, the claim as stated: with the callback of the header's sketch
    installed, which stores the value and advances [input] itself, a
    successful [push_front] leaves [input] advanced by two. *)
Lemma push_front_after_advancing_callback_adds_two :
  ringbuffer_full (RingBuffer (RingCells 0 0 [0; 0; 0; 0]) (Some store_and_advance))
    = false /\
  strategy_rejects
    (RingBuffer (RingCells 0 0 [0; 0; 0; 0]) (Some store_and_advance)) 5 = false /\
  ringbuffer_push_front
    (RingBuffer (RingCells 0 0 [0; 0; 0; 0]) (Some store_and_advance)) 5
    = (true, RingBuffer (RingCells 2 0 [5; 0; 0; 0]) (Some store_and_advance)) /\
  2 <> to_index (0 + 1).
Proof. repeat split. discriminate. Qed.

Lemma index_ok_int_buffer_4 : index_ok (int_buffer 4 0 [1; 2; 3; 4; 0; 0; 0; 0]).
Proof. split; split; (discriminate || reflexivity). Defined.

Lemma even_only_keeps_cursors i o d :
  callback_keeps_cursors (guarded_buffer i o d).
Proof.
  intros cb E c v. injection E as E. rewrite <- E. split; reflexivity.
Defined.

(** [push_front] with a strategy installed: 3 is refused and [input] stays
    at 1; 4 is accepted and [input] becomes 2. *)
Lemma push_front_fails_iff_full_or_rejected_witness :
  callback_keeps_cursors (guarded_buffer 1 0 [2; 0; 0; 0]) /\
  (fst (ringbuffer_push_front (guarded_buffer 1 0 [2; 0; 0; 0]) 3) = false /\
   input (snd (ringbuffer_push_front (guarded_buffer 1 0 [2; 0; 0; 0]) 3)) = 1) /\
  (fst (ringbuffer_push_front (guarded_buffer 1 0 [2; 0; 0; 0]) 4) = true /\
   input (snd (ringbuffer_push_front (guarded_buffer 1 0 [2; 0; 0; 0]) 4)) = 2).
Proof.
  split; [apply even_only_keeps_cursors|]. split.
  - pose proof (push_front_fails_iff_full_or_rejected
                  (guarded_buffer 1 0 [2; 0; 0; 0]) 3
                  (even_only_keeps_cursors 1 0 [2; 0; 0; 0])) as H.
    cbv zeta in H. destruct H as (Hiff & _ & Hfail & _).
    assert (Hf : fst (ringbuffer_push_front (guarded_buffer 1 0 [2; 0; 0; 0]) 3)
                 = false) by (apply Hiff; right; reflexivity).
    split; [exact Hf|]. apply (Hfail Hf).
  - pose proof (push_front_fails_iff_full_or_rejected
                  (guarded_buffer 1 0 [2; 0; 0; 0]) 4
                  (even_only_keeps_cursors 1 0 [2; 0; 0; 0])) as H.
    cbv zeta in H. destruct H as (_ & _ & _ & Hok & _).
    split; [reflexivity|]. apply (Hok eq_refl).
Defined.

(** [pop_string] with room for ten on a buffer holding [1, 2, 3, 4]. *)
Lemma pop_string_copies_min_of_limit_and_count_witness :
  index_ok (int_buffer 4 0 [1; 2; 3; 4; 0; 0; 0; 0]) /\
  0 <= 10 < SIZE_MOD /\
  exists r,
    ringbuffer_pop_string 0 (int_buffer 4 0 [1; 2; 3; 4; 0; 0; 0; 0])
      (fun _ => 7) 10 = Some r /\
    transferred r = 4 /\
    ringbuffer_count (rb_after r) = 0.
Proof.
  assert (Hl : 0 <= 10 < SIZE_MOD) by (split; (discriminate || reflexivity)).
  split; [exact index_ok_int_buffer_4|]. split; [exact Hl|].
  destruct (pop_string_copies_min_of_limit_and_count 0
              (int_buffer 4 0 [1; 2; 3; 4; 0; 0; 0; 0]) (fun _ => 7) 10
              index_ok_int_buffer_4 Hl)
    as (r & Hr & Hn & _ & _ & _ & _ & _ & _ & Hc).
  exists r. split; [exact Hr|]. split; [exact Hn|].
  rewrite Hc, Hn. reflexivity.
Defined.

(** [pop_cstring] with limit 3 on a buffer holding [1, 2, 3, 4]. *)
Lemma pop_cstring_reserves_last_cell_for_terminator_witness :
  exists r,
    ringbuffer_pop_cstring 0 (int_buffer 4 0 [1; 2; 3; 4; 0; 0; 0; 0])
      (fun _ => 7) 3 = Some r /\
    transferred r = 2 /\
    dest_after r 0 = 1 /\ dest_after r 1 = 2 /\ dest_after r 2 = 0 /\
    ringbuffer_count (rb_after r) = 2.
Proof.
  destruct (pop_cstring_reserves_last_cell_for_terminator 0) as (_ & _ & H).
  exact (H 1 2 3 4 (int_buffer 4 0 [1; 2; 3; 4; 0; 0; 0; 0]) (fun _ => 7)
           index_ok_int_buffer_4 eq_refl eq_refl eq_refl eq_refl eq_refl).
Defined.

(** [pop_cstring_cond], halting at zeros, on a buffer holding [1, 0, 2]. *)
Lemma pop_cstring_cond_terminator_unless_empty_witness :
  ringbuffer_empty (int_buffer 3 0 [1; 0; 2; 0]) = false /\
  exists r,
    ringbuffer_pop_cstring_cond 0 (Some (on_oldest 0 (Z.eqb 0), halt))
      (int_buffer 3 0 [1; 0; 2; 0]) (fun _ => 7) 4 = Some r /\
    dest_after r (transferred r) = 0.
Proof.
  split; [reflexivity|].
  exact (proj1 (pop_cstring_cond_terminator_unless_empty 0
                  (Some (on_oldest 0 (Z.eqb 0), halt))
                  (int_buffer 3 0 [1; 0; 2; 0]) (fun _ => 7) 4) eq_refl).
Defined.

(** The skip example with the smallest limit that lets all three elements
    through. *)
Lemma cond_skip_consumes_and_halt_stops_witness :
  4 <= 4 < SIZE_MOD /\
  exists r,
    ringbuffer_pop_cstring_cond 0 (Some (on_oldest 0 (Z.eqb 0), skip))
      (int_buffer 3 0 [1; 0; 2; 0]) (fun _ => 7) 4 = Some r /\
    transferred r = 2 /\
    dest_after r 0 = 1 /\ dest_after r 1 = 2 /\ dest_after r 2 = 0 /\
    output (rb_after r) = 3 /\ ringbuffer_count (rb_after r) = 0.
Proof.
  assert (Hl : 4 <= 4 < SIZE_MOD) by (split; (discriminate || reflexivity)).
  split; [exact Hl|].
  exact (proj1 (proj2 cond_skip_consumes_and_halt_stops) (fun _ => 7) 4 Hl).
Defined.

Lemma index_ok_int_buffer_3 : index_ok (int_buffer 3 0 [1; 0; 2; 0]).
Proof. split; split; (discriminate || reflexivity). Defined.

(** [limit == 0] on a buffer holding [1, 0, 2], with a condition that holds
    for none of them: all three are copied and [dest[3]] is the terminator. *)
Lemma limit_zero_wraps_and_drains_witness :
  index_ok (int_buffer 3 0 [1; 0; 2; 0]) /\
  ringbuffer_empty (int_buffer 3 0 [1; 0; 2; 0]) = false /\
  never_matches (Some (on_oldest 0 (Z.eqb 9), skip)) (int_buffer 3 0 [1; 0; 2; 0])
    (ringbuffer_count (int_buffer 3 0 [1; 0; 2; 0])) /\
  (exists r,
     ringbuffer_pop_cstring 0 (int_buffer 3 0 [1; 0; 2; 0]) (fun _ => 7) 0
       = Some r /\
     drained 0 (int_buffer 3 0 [1; 0; 2; 0]) (fun _ => 7) r) /\
  (exists r,
     ringbuffer_pop_cstring_cond 0 (Some (on_oldest 0 (Z.eqb 9), skip))
       (int_buffer 3 0 [1; 0; 2; 0]) (fun _ => 7) 0 = Some r /\
     drained 0 (int_buffer 3 0 [1; 0; 2; 0]) (fun _ => 7) r).
Proof.
  assert (Hnm : never_matches (Some (on_oldest 0 (Z.eqb 9), skip))
                  (int_buffer 3 0 [1; 0; 2; 0])
                  (ringbuffer_count (int_buffer 3 0 [1; 0; 2; 0]))).
  { intros i Hi. change (ringbuffer_count (int_buffer 3 0 [1; 0; 2; 0])) with 3 in Hi.
    assert (Hcases : i = 0 \/ i = 1 \/ i = 2) by lia.
    destruct Hcases as [->|[->| ->]]; reflexivity. }
  split; [exact index_ok_int_buffer_3|]. split; [reflexivity|].
  split; [exact Hnm|].
  destruct (limit_zero_wraps_and_drains 0 (Some (on_oldest 0 (Z.eqb 9), skip))
              (int_buffer 3 0 [1; 0; 2; 0]) (fun _ => 7)
              index_ok_int_buffer_3 eq_refl) as (_ & H1 & H2).
  split; [exact H1|exact (H2 Hnm)].
Defined.

Lemma count_ok_int_buffer_4 : count_ok (int_buffer 4 0 [1; 2; 3; 4; 0; 0; 0; 0]).
Proof. split; discriminate. Defined.

(** The count bound on a buffer holding [1, 2, 3, 4] out of 8. *)
Lemma count_bound_kept_by_all_but_push_string_witness :
  count_ok (int_buffer 4 0 [1; 2; 3; 4; 0; 0; 0; 0]) /\
  count_ok (snd (ringbuffer_pop_back (int_buffer 4 0 [1; 2; 3; 4; 0; 0; 0; 0]))).
Proof.
  split; [exact count_ok_int_buffer_4|].
  exact (proj1 (proj2 (proj2 (count_bound_kept_by_all_but_push_string 0
           (int_buffer 4 0 [1; 2; 3; 4; 0; 0; 0; 0]) count_ok_int_buffer_4)))).
Defined.


(** [init] on a buffer of capacity 2 whose cursors held anything. *)
Lemma init_gives_empty_buffer_witness :
  1 <= BUFFER_LEN (int_buffer 7 5 [0; 0]) /\
  ringbuffer_count (ringbuffer_init (int_buffer 7 5 [0; 0]) None) = 0.
Proof.
  assert (H : 1 <= BUFFER_LEN (int_buffer 7 5 [0; 0])) by discriminate.
  split; [exact H|].
  exact (proj1 (init_gives_empty_buffer (int_buffer 7 5 [0; 0]) None H)).
Defined.

(** * The buffer as a queue *)

(** ** Masked positions for a capacity that is a power of two *)

Section Positions.

Context {T : Type}.
Variable zero : T.
Implicit Types (rb : ring_buffer T) (c : ring_cells T).

Lemma capacity_pos c : capacity_ok c -> 0 < BUFFER_LEN c.
Proof.
  intros [(k & Hk & E) _]. rewrite E. apply Z.pow_pos_nonneg; lia.
Qed.

Lemma wrap_is_mod c x : capacity_ok c -> RINGBUF_WRAP c x = x mod BUFFER_LEN c.
Proof.
  intros [(k & Hk & E) Hlt]. unfold RINGBUF_WRAP. rewrite E in *.
  pose proof INDEX_MOD_le_SIZE_MOD.
  assert (0 < 2 ^ k) by (apply Z.pow_pos_nonneg; lia).
  rewrite to_size_small by lia.
  replace (2 ^ k - 1) with (Z.ones k) by (rewrite Z.ones_equiv; lia).
  apply Z.land_ones. exact Hk.
Qed.

Lemma wrap_range c x : capacity_ok c -> 0 <= RINGBUF_WRAP c x < BUFFER_LEN c.
Proof.
  intros Hcap. rewrite wrap_is_mod by exact Hcap.
  apply Z.mod_pos_bound, capacity_pos, Hcap.
Qed.

Lemma capacity_divides c : capacity_ok c -> (BUFFER_LEN c | INDEX_MOD).
Proof.
  intros [(k & Hk & E) Hlt]. rewrite E in *.
  assert (k <= INDEX_BITS).
  { destruct (Z.le_gt_cases k INDEX_BITS) as [|Hgt]; [assumption|].
    apply (Z.pow_lt_mono_r 2) in Hgt; unfold INDEX_MOD in Hlt; lia. }
  exists (2 ^ (INDEX_BITS - k)). unfold INDEX_MOD.
  rewrite <- Z.pow_add_r by lia. f_equal. lia.
Qed.

Lemma wrap_to_index c x :
  capacity_ok c -> RINGBUF_WRAP c (to_index x) = RINGBUF_WRAP c x.
Proof.
  intros Hcap. rewrite !wrap_is_mod by exact Hcap. unfold to_index.
  apply Z.mod_mod_divide, capacity_divides, Hcap.
Qed.

(** [input] is [output + count()] as an [index_t]. *)
Lemma input_is_output_plus_count c :
  index_ok c -> to_index (output c + ringbuffer_count c) = input c.
Proof.
  intros [Hi _]. unfold ringbuffer_count, to_index.
  rewrite Zplus_mod_idemp_r.
  replace (output c + (input c - output c)) with (input c) by lia.
  apply Z.mod_small, Hi.
Qed.

(** The slot [push_front] writes is none of the slots in use. *)
Lemma input_slot_is_free c i :
  index_ok c -> capacity_ok c ->
  ringbuffer_count c < BUFFER_LEN c ->
  0 <= i < ringbuffer_count c ->
  RINGBUF_WRAP c (to_index (output c + i)) <> RINGBUF_WRAP c (input c).
Proof.
  intros Hok Hcap Hfree Hi E.
  rewrite <- (input_is_output_plus_count c Hok) in E.
  rewrite !wrap_to_index, !wrap_is_mod in E by exact Hcap.
  pose proof (capacity_pos c Hcap) as HN.
  assert (D : (output c + ringbuffer_count c - (output c + i)) mod BUFFER_LEN c = 0).
  { rewrite Zminus_mod, E, Z.sub_diag. apply Z.mod_0_l. lia. }
  replace (output c + ringbuffer_count c - (output c + i))
    with (ringbuffer_count c - i) in D by lia.
  rewrite Z.mod_small in D by lia. lia.
Qed.

Lemma slot_after_store rb v j :
  capacity_ok rb -> 0 <= j ->
  slot zero (inc_input (RINGBUF_CURR_i_store rb v)) j =
    if j =? RINGBUF_WRAP rb (input rb) then v else slot zero rb j.
Proof.
  intros Hcap Hj.
  pose proof (wrap_range rb (input rb) Hcap) as Hw.
  unfold slot. cbn [inc_input set_input with_cells cells data_buffer
                    RINGBUF_CURR_i_store set_data_buffer].
  rewrite !nth_lookup.
  destruct (Z.eqb_spec j (RINGBUF_WRAP rb (input rb))) as [->|Hne].
  - rewrite list_lookup_insert_eq; [reflexivity|].
    unfold BUFFER_LEN, ARRAY_COUNT in Hw. lia.
  - rewrite list_lookup_insert_ne; [reflexivity|]. lia.
Qed.

Lemma oldest_after_store rb v i :
  index_ok rb -> capacity_ok rb ->
  ringbuffer_count rb < BUFFER_LEN rb ->
  0 <= i <= ringbuffer_count rb ->
  oldest zero (inc_input (RINGBUF_CURR_i_store rb v)) i =
    if i =? ringbuffer_count rb then v else oldest zero rb i.
Proof.
  intros Hok Hcap Hfree Hi.
  unfold oldest at 1, RINGBUF_CURR_o_at.
  change (output (inc_input (RINGBUF_CURR_i_store rb v))) with (output rb).
  assert (HW : forall x, RINGBUF_WRAP (inc_input (RINGBUF_CURR_i_store rb v)) x
                         = RINGBUF_WRAP rb x).
  { intros x. unfold RINGBUF_WRAP.
    change (BUFFER_LEN (inc_input (RINGBUF_CURR_i_store rb v)))
      with (BUFFER_LEN (RINGBUF_CURR_i_store rb v)).
    rewrite BUFFER_LEN_store. reflexivity. }
  rewrite HW, slot_after_store by (try apply wrap_range; assumption).
  destruct (Z.eqb_spec i (ringbuffer_count rb)) as [->|Hne].
  - rewrite input_is_output_plus_count by exact Hok.
    rewrite Z.eqb_refl. reflexivity.
  - destruct (Z.eqb_spec (RINGBUF_WRAP rb (to_index (output rb + i)))
                         (RINGBUF_WRAP rb (input rb))) as [E|_].
    + exfalso. revert E. apply input_slot_is_free; auto. lia.
    + reflexivity.
Qed.

End Positions.

(** ** Contents *)

Section Queue.

Context {T : Type}.
Variable zero : T.
Implicit Types (rb : ring_buffer T) (c : ring_cells T) (dest : Z -> T).

Lemma map_seq_offset {B : Type} (f : nat -> B) (m k : nat) :
  map f (seq m k) = map (fun i => f (m + i)%nat) (seq 0 k).
Proof.
  revert m. induction k as [|k IH]; intros m; [reflexivity|].
  cbn [seq map]. rewrite Nat.add_0_r. f_equal.
  rewrite IH, <- (seq_shift k 0), map_map.
  apply map_ext. intros i. f_equal. lia.
Qed.

Lemma elements_length c n : length (elements zero c n) = n.
Proof. unfold elements. rewrite length_map, length_seq. reflexivity. Qed.

Lemma contents_length c :
  Z.of_nat (length (contents zero c)) = ringbuffer_count c.
Proof.
  unfold contents. rewrite elements_length.
  pose proof (count_range c). lia.
Qed.

Lemma contents_nil_iff c : contents zero c = [] <-> ringbuffer_count c = 0.
Proof.
  pose proof (contents_length c) as H. split; intros E.
  - rewrite E in H. cbn in H. lia.
  - destruct (contents zero c); [reflexivity|]. cbn in H. lia.
Qed.

Lemma nth_elements c n i :
  (i < n)%nat -> nth i (elements zero c n) zero = oldest zero c (Z.of_nat i).
Proof.
  intros Hi. unfold elements.
  rewrite (nth_indep _ zero (oldest zero c (Z.of_nat 0)))
    by (rewrite length_map, length_seq; exact Hi).
  rewrite (map_nth (fun i => oldest zero c (Z.of_nat i))).
  rewrite seq_nth by exact Hi. reflexivity.
Qed.

Lemma elements_snoc c n :
  elements zero c (S n) = elements zero c n ++ [oldest zero c (Z.of_nat n)].
Proof. unfold elements. rewrite seq_S, map_app. reflexivity. Qed.

Lemma elements_ext c c' n :
  (forall i, 0 <= i < Z.of_nat n -> oldest zero c' i = oldest zero c i) ->
  elements zero c' n = elements zero c n.
Proof.
  intros H. unfold elements. apply map_ext_in. intros i Hi.
  apply in_seq in Hi. apply H. lia.
Qed.

Lemma oldest_advance rb m k :
  oldest zero (advance rb m) k = oldest zero rb (m + k).
Proof.
  unfold oldest, RINGBUF_CURR_o_at, slot, RINGBUF_WRAP, BUFFER_LEN; cbn.
  rewrite to_index_add_l, Z.add_assoc. reflexivity.
Qed.

Lemma take_elements c m n :
  take m (elements zero c n) = elements zero c (Nat.min m n).
Proof. unfold elements. rewrite firstn_map, take_seq. reflexivity. Qed.

Lemma drop_elements rb m n :
  drop m (elements zero rb n) = elements zero (advance rb (Z.of_nat m)) (n - m).
Proof.
  unfold elements. rewrite skipn_map, drop_seq, map_seq_offset.
  apply map_ext. intros i. rewrite oldest_advance. f_equal. lia.
Qed.

Lemma contents_advance rb n :
  (n <= Z.to_nat (ringbuffer_count rb))%nat ->
  contents zero (advance rb (Z.of_nat n)) = drop n (contents zero rb).
Proof.
  intros Hn. pose proof (count_range rb).
  unfold contents. rewrite drop_elements, count_advance by lia.
  f_equal. lia.
Qed.

Lemma contents_inc_output rb :
  ringbuffer_count rb <> 0 ->
  contents zero (inc_output rb) = drop 1 (contents zero rb).
Proof.
  intros Hc. pose proof (count_range rb).
  apply (contents_advance rb 1). lia.
Qed.

(** [push_front], with no strategy installed, appends to the contents. *)
Theorem push_front_appends_to_contents rb v :
  index_ok rb -> count_ok rb -> capacity_ok rb -> push_callback rb = None ->
  let r := ringbuffer_push_front rb v in
  (ringbuffer_full rb = false ->
     fst r = true /\
     contents zero (snd r) = contents zero rb ++ [v] /\
     ringbuffer_count (snd r) = ringbuffer_count rb + 1) /\
  (ringbuffer_full rb = true -> r = (false, rb)) /\
  index_ok (snd r) /\ count_ok (snd r) /\ capacity_ok (snd r) /\
  BUFFER_LEN (snd r) = BUFFER_LEN rb /\
  push_callback (snd r) = None.
Proof.
  intros Hok Hinv Hcap Hcb r. subst r.
  destruct (ringbuffer_full rb) eqn:Hf.
  { unfold ringbuffer_push_front. rewrite Hf. cbn [fst snd].
    repeat split; auto; try discriminate; apply Hinv || apply Hok || apply Hcap. }
  rewrite push_front_not_full by exact Hf. rewrite Hcb. cbn [fst snd].
  assert (Hfree : ringbuffer_count rb < BUFFER_LEN rb).
  { destruct Hinv as [_ Hle].
    assert (ringbuffer_count rb <> BUFFER_LEN rb)
      by (intros E; apply full_iff in E; congruence).
    lia. }
  assert (HN : BUFFER_LEN (inc_input (RINGBUF_CURR_i_store rb v)) = BUFFER_LEN rb)
    by apply (BUFFER_LEN_store rb v).
  assert (Hcnt : ringbuffer_count (inc_input (RINGBUF_CURR_i_store rb v))
                 = ringbuffer_count rb + 1).
  { rewrite (count_inc_input (RINGBUF_CURR_i_store rb v)).
    change (ringbuffer_count (RINGBUF_CURR_i_store rb v))
      with (ringbuffer_count rb).
    pose proof (count_range rb). destruct Hcap as [_ Hlt].
    apply to_index_small. lia. }
  pose proof (count_range rb) as Hcr.
  split; [|split; [discriminate|]].
  - intros _. split; [reflexivity|]. split; [|exact Hcnt].
    unfold contents. rewrite Hcnt.
    replace (Z.to_nat (ringbuffer_count rb + 1))
      with (S (Z.to_nat (ringbuffer_count rb))) by lia.
    rewrite elements_snoc. f_equal.
    + apply elements_ext. intros i Hi.
      rewrite oldest_after_store by (auto; lia).
      destruct (Z.eqb_spec i (ringbuffer_count rb)); [lia|reflexivity].
    + rewrite oldest_after_store by (auto; lia).
      rewrite Z2Nat.id, Z.eqb_refl by lia. reflexivity.
  - split; [apply (index_ok_inc_input (RINGBUF_CURR_i_store rb v)), Hok|].
    split; [unfold count_ok; rewrite Hcnt, HN; lia|].
    split; [unfold capacity_ok; rewrite HN; exact Hcap|].
    split; [exact HN|exact Hcb].
Qed.

(** [pop_back] drops the oldest element of the contents and fails exactly
    when there is none; [peek] at [k] points to the [k]-th element of the
    contents and is NULL exactly from their length on. *)
Theorem pop_back_drops_oldest_of_contents rb :
  let r := ringbuffer_pop_back rb in
  (fst r = false <-> contents zero rb = []) /\
  contents zero (snd r) = drop 1 (contents zero rb) /\
  (forall k, 0 <= k ->
     match fst (ringbuffer_peek rb k) with
     | Some i =>
         (Z.to_nat k < length (contents zero rb))%nat /\
         slot zero rb i = nth (Z.to_nat k) (contents zero rb) zero
     | None => (length (contents zero rb) <= Z.to_nat k)%nat
     end).
Proof.
  intros r. subst r. pose proof (count_range rb) as Hcr.
  pose proof (contents_length rb) as Hlen.
  unfold ringbuffer_pop_back.
  destruct (ringbuffer_empty rb) eqn:He; cbn [fst snd].
  - apply empty_iff in He. apply contents_nil_iff in He.
    rewrite He. repeat split; auto.
    intros k Hk. unfold ringbuffer_peek.
    rewrite He in Hlen. cbn in Hlen.
    destruct (Z.gtb_spec (ringbuffer_count rb) k); [lia|]. cbn [fst length]. lia.
  - apply empty_false_iff in He.
    split; [|split].
    + split; [discriminate|]. intros E. apply contents_nil_iff in E. lia.
    + apply contents_inc_output, He.
    + intros k Hk. unfold ringbuffer_peek.
      destruct (Z.gtb_spec (ringbuffer_count rb) k) as [Hlt|Hge]; cbn [fst].
      * split; [lia|]. unfold contents.
        rewrite nth_elements by lia. rewrite Z2Nat.id by lia. reflexivity.
      * lia.
Qed.

(** A window of [dest] that holds the elements of [out]. *)
Lemma view_of_cells (m : Z -> T) (out : list T) :
  (forall i, (i < length out)%nat -> m (Z.of_nat i) = nth i out zero) ->
  view m (length out) = out.
Proof.
  intros H. unfold view.
  apply (nth_ext _ _ (m 0) zero).
  - rewrite length_map, length_seq. reflexivity.
  - intros i Hi. rewrite length_map, length_seq in Hi.
    rewrite (map_nth (fun i => m (Z.of_nat i)) (seq 0 (length out)) 0%nat).
    rewrite seq_nth by exact Hi. apply H, Hi.
Qed.

Lemma pop_back_times_is_advance rb n :
  index_ok rb -> (n <= Z.to_nat (ringbuffer_count rb))%nat ->
  pop_back_times n rb = advance rb (Z.of_nat n).
Proof.
  intros Hok. pose proof (count_range rb) as Hcr.
  induction n as [|n IH]; intros Hn.
  - symmetry. apply advance_0, Hok.
  - unfold pop_back_times. rewrite Nat.iter_succ.
    fold (pop_back_times n rb). rewrite IH by lia.
    unfold ringbuffer_pop_back.
    assert (He : ringbuffer_empty (advance rb (Z.of_nat n)) = false).
    { apply empty_false_iff. rewrite count_advance by lia. lia. }
    rewrite He. cbn [snd].
    unfold inc_output, advance, set_output, with_cells; cbn.
    rewrite to_index_add_l.
    replace (output rb + Z.of_nat n + 1) with (output rb + Z.of_nat (S n)) by lia.
    reflexivity.
Qed.

(** [pop_string] moves a prefix of the contents to [dest]: the first
    [limit] elements, or all of them when there are fewer; the rest stays
    buffered, and the buffer left is the one [transferred] calls of
    [pop_back] leave. *)
Theorem pop_string_takes_prefix_of_contents rb dest limit :
  index_ok rb -> 0 <= limit < SIZE_MOD ->
  exists r,
    ringbuffer_pop_string zero rb dest limit = Some r /\
    transferred r = Z.of_nat (length (take (Z.to_nat limit) (contents zero rb))) /\
    view (dest_after r) (Z.to_nat (transferred r))
      = take (Z.to_nat limit) (contents zero rb) /\
    contents zero (rb_after r) = drop (Z.to_nat limit) (contents zero rb) /\
    rb_after r = pop_back_times (Z.to_nat (transferred r)) rb.
Proof.
  intros Hok Hl. pose proof (count_range rb) as Hcr.
  destruct (pop_string_closed zero rb dest limit Hok Hl)
    as (r & Hr & Hn & Hrb & Hd).
  exists r. split; [exact Hr|].
  assert (Htake : take (Z.to_nat limit) (contents zero rb)
                  = elements zero rb (Z.to_nat (transferred r))).
  { unfold contents. rewrite take_elements. f_equal. lia. }
  rewrite Htake, elements_length.
  split; [lia|]. split; [|split].
  - rewrite <- (elements_length rb (Z.to_nat (transferred r))) at 1.
    apply view_of_cells. intros i Hi. rewrite elements_length in Hi.
    rewrite nth_elements by exact Hi. rewrite Hd.
    destruct (Z.leb_spec 0 (Z.of_nat i)),
             (Z.ltb_spec (Z.of_nat i) (transferred r)); cbn;
      try reflexivity; lia.
  - rewrite Hrb.
    replace (transferred r) with (Z.of_nat (Z.to_nat (transferred r))) at 1 by lia.
    rewrite contents_advance by lia.
    destruct (Z.le_gt_cases limit (ringbuffer_count rb)).
    + f_equal. lia.
    + pose proof (contents_length rb).
      rewrite !drop_ge by lia. reflexivity.
  - rewrite pop_back_times_is_advance by (auto; lia).
    rewrite Hrb. f_equal. lia.
Qed.

(** Calling [push_front] on each value of a list, with no strategy
    installed: the first [N - count()] values are accepted and appended in
    order, every later call returns false. *)
Theorem push_front_all_accepts_until_full (l : list T) : forall rb,
  index_ok rb -> count_ok rb -> capacity_ok rb -> push_callback rb = None ->
  let r := push_front_all rb l in
  fst r = Z.min (Z.of_nat (length l)) (BUFFER_LEN rb - ringbuffer_count rb) /\
  contents zero (snd r) =
    contents zero rb ++ take (Z.to_nat (BUFFER_LEN rb - ringbuffer_count rb)) l /\
  index_ok (snd r) /\ count_ok (snd r) /\ capacity_ok (snd r) /\
  BUFFER_LEN (snd r) = BUFFER_LEN rb /\
  push_callback (snd r) = None.
Proof.
  induction l as [|v l IH]; intros rb Hok Hinv Hcap Hcb.
  - cbn. rewrite take_nil, app_nil_r. destruct Hinv. repeat split; auto; try lia;
      apply Hok || apply Hcap.
  - cbv zeta. cbn [push_front_all].
    pose proof (push_front_appends_to_contents rb v Hok Hinv Hcap Hcb) as Hp.
    cbv zeta in Hp.
    destruct (ringbuffer_push_front rb v) as [ok rb1]. cbn [fst snd] in Hp.
    destruct Hp as (Hacc & Hrej & Hok1 & Hinv1 & Hcap1 & HN1 & Hcb1).
    specialize (IH rb1 Hok1 Hinv1 Hcap1 Hcb1). cbv zeta in IH.
    destruct (push_front_all rb1 l) as [n rb2]. cbn [fst snd] in IH |- *.
    destruct IH as (Hn & Hc & Hok2 & Hinv2 & Hcap2 & HN2 & Hcb2).
    rewrite HN1 in *.
    assert (Hrest : index_ok rb2 /\ count_ok rb2 /\ capacity_ok rb2 /\
                    BUFFER_LEN rb2 = BUFFER_LEN rb /\ push_callback rb2 = None)
      by auto.
    destruct Hinv as [H0 HleN].
    destruct (ringbuffer_full rb) eqn:Hf.
    + specialize (Hrej eq_refl). injection Hrej as -> ->.
      apply full_iff in Hf.
      replace (BUFFER_LEN rb - ringbuffer_count rb) with 0 in * by lia.
      cbn [length take Z.to_nat] in *. rewrite take_0 in Hc.
      split; [lia|]. split; [exact Hc|exact Hrest].
    + destruct (Hacc eq_refl) as (-> & Hc1 & Hcnt1).
      assert (ringbuffer_count rb <> BUFFER_LEN rb)
        by (intros E; apply full_iff in E; congruence).
      rewrite Hcnt1 in *. rewrite Hc1 in Hc.
      split; [cbn [length]; lia|]. split; [|exact Hrest].
      rewrite Hc, <- app_assoc. f_equal.
      replace (Z.to_nat (BUFFER_LEN rb - ringbuffer_count rb))
        with (S (Z.to_nat (BUFFER_LEN rb - (ringbuffer_count rb + 1)))) by lia.
      reflexivity.
Qed.

(** Round trip: a list no longer than the capacity, pushed value by value
    into a freshly initialised buffer and popped by [pop_string] with room
    for it, comes back as it was, and the buffer is empty again. *)
Theorem push_then_pop_string_returns_the_list rb (l : list T) dest limit :
  capacity_ok rb ->
  Z.of_nat (length l) <= BUFFER_LEN rb ->
  Z.of_nat (length l) <= limit < SIZE_MOD ->
  let pushed := push_front_all (ringbuffer_init rb None) l in
  fst pushed = Z.of_nat (length l) /\
  exists r,
    ringbuffer_pop_string zero (snd pushed) dest limit = Some r /\
    transferred r = Z.of_nat (length l) /\
    view (dest_after r) (length l) = l /\
    ringbuffer_empty (rb_after r) = true.
Proof.
  intros Hcap Hlen Hl pushed. subst pushed.
  pose proof (capacity_pos rb Hcap) as HN.
  destruct (push_front_all_accepts_until_full l (ringbuffer_init rb None))
    as (Hn & Hc & Hok & Hinv & _ & _ & _).
  - split; cbn; pose proof INDEX_MOD_pos; lia.
  - unfold count_ok.
    change (ringbuffer_count (ringbuffer_init rb None)) with 0.
    change (BUFFER_LEN (ringbuffer_init rb None)) with (BUFFER_LEN rb). lia.
  - exact Hcap.
  - reflexivity.
  - change (ringbuffer_count (ringbuffer_init rb None)) with 0 in Hn, Hc.
    change (BUFFER_LEN (ringbuffer_init rb None)) with (BUFFER_LEN rb) in Hn, Hc.
    change (contents zero (ringbuffer_init rb None)) with (@nil T) in Hc.
    rewrite Z.sub_0_r in Hn, Hc. rewrite take_ge in Hc by lia.
    cbn [app] in Hc.
    split; [lia|].
    destruct (pop_string_takes_prefix_of_contents
                (snd (push_front_all (ringbuffer_init rb None) l)) dest limit)
      as (r & Hr & Ht & Hv & Hrest & _); [exact Hok|lia|].
    rewrite Hc in Ht, Hv, Hrest.
    rewrite take_ge in Ht, Hv by lia. rewrite drop_ge in Hrest by lia.
    exists r. split; [exact Hr|]. split; [exact Ht|].
    split; [rewrite Ht, Nat2Z.id in Hv; exact Hv|].
    apply empty_iff, contents_nil_iff, Hrest.
Qed.

End Queue.

(** ** The conditional pop over the contents *)

Section CondQueue.

Context {T : Type}.
Variable zero : T.
Implicit Types (rb : ring_buffer T) (s : pop_frame T) (dest : Z -> T).

Lemma elements_cons rb n :
  index_ok rb ->
  elements zero rb (S n) = RINGBUF_CURR_o zero rb :: elements zero (inc_output rb) n.
Proof.
  intros Hok. unfold elements. cbn [seq map].
  rewrite <- (oldest_0 zero rb Hok). f_equal.
  rewrite <- seq_shift, map_map. apply map_ext. intros i.
  rewrite oldest_inc_output. f_equal. lia.
Qed.

Lemma cond_run_skip (p : T -> bool) (l : list T) :
  cond_run p skip l = (List.filter (fun x => negb (p x)) l, length l).
Proof.
  induction l as [|x l IH]; [reflexivity|].
  cbn [cond_run List.filter length]. rewrite IH. cbn [fst snd].
  destruct (p x); reflexivity.
Qed.

Lemma cond_run_halt (p : T -> bool) (l : list T) :
  let n := snd (cond_run p halt l) in
  fst (cond_run p halt l) = take n l /\
  (n <= length l)%nat /\
  (forall x, In x (take n l) -> p x = false) /\
  (n < length l -> exists x, nth_error l n = Some x /\ p x = true)%nat.
Proof.
  induction l as [|x l IH]; cbn [cond_run].
  - cbn. split; [reflexivity|]. split; [lia|]. split; [intros x []|lia].
  - destruct (p x) eqn:Hp; cbn [fst snd length].
    + split; [reflexivity|]. split; [lia|]. split; [intros y []|].
      intros _. exists x. split; [reflexivity|exact Hp].
    + cbv zeta in IH. destruct IH as (Hout & Hle & Hall & Hnext).
      cbn [take]. rewrite <- Hout.
      split; [reflexivity|]. split; [lia|]. split.
      * intros y [<-|Hy]; [exact Hp|]. apply Hall. rewrite <- Hout. exact Hy.
      * intros Hn. cbn [nth_error]. apply Hnext. lia.
Qed.

(** The loop of [pop_cstring_cond] with a condition on the oldest element,
    against [cond_run] on the elements the limit lets it visit. *)
Lemma cond_loop_runs (p : T -> bool) (b : on_match) fuel : forall s k,
  Z.of_nat k = Z.min (to_size (p_limit s - 1)) (ringbuffer_count (p_rb s)) ->
  index_ok (p_rb s) ->
  0 <= p_count s ->
  p_count s + Z.of_nat k < SIZE_MOD ->
  (k <= fuel)%nat ->
  exists s',
    pop_cstring_cond_loop zero (Some (on_oldest zero p, b)) fuel s = Some s' /\
    p_rb s' =
      advance (p_rb s)
        (Z.of_nat (snd (cond_run p b (elements zero (p_rb s) k)))) /\
    p_count s' =
      p_count s
      + Z.of_nat (length (fst (cond_run p b (elements zero (p_rb s) k)))) /\
    forall j,
      p_dest s' j =
        if (p_count s <=? j)
           && (j <? p_count s
                    + Z.of_nat (length (fst (cond_run p b (elements zero (p_rb s) k)))))
        then nth (Z.to_nat (j - p_count s))
                 (fst (cond_run p b (elements zero (p_rb s) k))) zero
        else p_dest s j.
Proof.
  induction fuel as [|fuel IH]; intros s k Hk Hok Hc Hfit Hfuel;
    pose proof (count_range (p_rb s)) as Hcr;
    pose proof (to_size_range (p_limit s - 1)) as Hlr.
  - assert (k = 0%nat) by lia. subst k.
    rewrite cond_loop_stop by lia. cbn [elements seq map cond_run fst snd length].
    eexists. split; [reflexivity|].
    cbn [set_limit p_rb p_count p_dest]. rewrite advance_0 by exact Hok.
    rewrite Z.add_0_r. frame.
    intros j. destruct (Z.leb_spec (p_count s) j), (Z.ltb_spec j (p_count s));
      cbn; try reflexivity; lia.
  - destruct k as [|k].
    { rewrite cond_loop_stop by lia.
      cbn [elements seq map cond_run fst snd length].
      eexists. split; [reflexivity|].
      cbn [set_limit p_rb p_count p_dest]. rewrite advance_0 by exact Hok.
      rewrite Z.add_0_r. frame.
      intros j. destruct (Z.leb_spec (p_count s) j), (Z.ltb_spec j (p_count s));
        cbn; try reflexivity; lia. }
    assert (Hl0 : to_size (p_limit s - 1) <> 0) by lia.
    assert (Hc0 : ringbuffer_count (p_rb s) <> 0) by lia.
    rewrite elements_cons by exact Hok. cbn [cond_run].
    assert (Hk' : Z.of_nat k = Z.min (to_size (to_size (p_limit s - 1) - 1))
                                     (ringbuffer_count (inc_output (p_rb s)))).
    { rewrite count_inc_output by exact Hc0.
      rewrite (to_size_small (to_size (p_limit s - 1) - 1)) by lia. lia. }
    destruct (p (RINGBUF_CURR_o zero (p_rb s))) eqn:Hp.
    + destruct b.
      * rewrite cond_loop_skip by assumption.
        destruct (IH {| p_rb := inc_output (p_rb s);
                        p_dest := p_dest s;
                        p_count := p_count s;
                        p_limit := to_size (p_limit s - 1) |} k)
          as (s' & Hs' & Hrb & Hcnt & Hdest);
          cbn [p_rb p_count p_dest p_limit] in *;
          [exact Hk'
          | apply index_ok_inc_output, Hok | lia | lia | lia |].
        exists s'. split; [exact Hs'|]. cbn [fst snd].
        rewrite Hrb, advance_inc_output. split; [f_equal; lia|].
        split; [exact Hcnt|exact Hdest].
      * rewrite cond_loop_halt by assumption.
        eexists. split; [reflexivity|].
        cbn [fst snd length p_rb p_count p_dest].
        rewrite advance_0 by exact Hok. rewrite Z.add_0_r. frame.
        intros j. destruct (Z.leb_spec (p_count s) j), (Z.ltb_spec j (p_count s));
          cbn; try reflexivity; lia.
    + rewrite cond_loop_copy by (auto; unfold on_oldest; exact Hp).
      destruct (IH {| p_rb := inc_output (p_rb s);
                      p_dest := store (p_dest s) (p_count s)
                                      (RINGBUF_CURR_o zero (p_rb s));
                      p_count := to_size (p_count s + 1);
                      p_limit := to_size (p_limit s - 1) |} k)
        as (s' & Hs' & Hrb & Hcnt & Hdest);
        cbn [p_rb p_count p_dest p_limit] in *;
        [exact Hk'
        | apply index_ok_inc_output, Hok
        | pose proof (to_size_range (p_count s + 1)); lia
        | rewrite to_size_small by lia; lia
        | lia |].
      rewrite to_size_small in Hcnt, Hdest by lia.
      exists s'. split; [exact Hs'|]. cbn [fst snd length].
      rewrite Hrb, advance_inc_output. split; [f_equal; lia|].
      split; [lia|].
      intros j. rewrite Hdest. unfold store.
      set (out := fst (cond_run p b (elements zero (inc_output (p_rb s)) k))).
      destruct (Z.leb_spec (p_count s + 1) j), (Z.leb_spec (p_count s) j),
        (Z.ltb_spec j (p_count s + 1 + Z.of_nat (length out))),
        (Z.ltb_spec j (p_count s + Z.of_nat (S (length out))));
        cbn [andb]; try lia.
      * replace (Z.to_nat (j - p_count s))
          with (S (Z.to_nat (j - (p_count s + 1)))) by lia.
        reflexivity.
      * destruct (Z.eqb_spec j (p_count s)); [lia|reflexivity].
      * assert (j = p_count s) by lia. subst j.
        rewrite Z.eqb_refl, Z.sub_diag. reflexivity.
      * destruct (Z.eqb_spec j (p_count s)); [lia|reflexivity].
Qed.

Lemma pop_cstring_cond_runs (p : T -> bool) (b : on_match) rb dest limit :
  index_ok rb -> ringbuffer_empty rb = false ->
  let k := Z.to_nat (Z.min (to_size (limit - 1)) (ringbuffer_count rb)) in
  let run := cond_run p b (elements zero rb k) in
  exists r,
    ringbuffer_pop_cstring_cond zero (Some (on_oldest zero p, b)) rb dest limit
      = Some r /\
    transferred r = Z.of_nat (length (fst run)) /\
    rb_after r = advance rb (Z.of_nat (snd run)) /\
    view (dest_after r) (length (fst run)) = fst run /\
    dest_after r (Z.of_nat (length (fst run))) = zero /\
    (forall j, ~ 0 <= j <= Z.of_nat (length (fst run)) -> dest_after r j = dest j).
Proof.
  intros Hok He k run. pose proof (count_range rb) as Hcr.
  pose proof (to_size_range (limit - 1)) as Hlr.
  pose proof INDEX_MOD_le_SIZE_MOD.
  unfold ringbuffer_pop_cstring_cond. rewrite He.
  destruct (cond_loop_runs p b (pop_fuel rb) (pop_enter rb dest limit) k)
    as (s' & Hs' & Hrb & Hcnt & Hdest);
    cbn [pop_enter p_rb p_count p_dest p_limit] in *;
    try (unfold pop_fuel; subst k; lia); try assumption.
  fold run in Hrb, Hcnt, Hdest. rewrite Z.add_0_l in Hcnt, Hdest.
  rewrite Hs'. eexists. split; [reflexivity|].
  cbn [pop_return terminate transferred rb_after dest_after p_rb p_count p_dest].
  rewrite Hcnt. split; [reflexivity|]. split; [exact Hrb|].
  unfold store. split; [|split].
  - apply (view_of_cells zero). intros i Hi. rewrite Hdest.
    destruct (Z.eqb_spec (Z.of_nat i) (Z.of_nat (length (fst run)))); [lia|].
    destruct (Z.leb_spec 0 (Z.of_nat i)),
             (Z.ltb_spec (Z.of_nat i) (Z.of_nat (length (fst run))));
      cbn [andb]; try lia.
    rewrite Z.sub_0_r, Nat2Z.id. reflexivity.
  - rewrite Z.eqb_refl. reflexivity.
  - intros j Hj. rewrite Hdest.
    destruct (Z.eqb_spec j (Z.of_nat (length (fst run)))); [lia|].
    destruct (Z.leb_spec 0 j), (Z.ltb_spec j (Z.of_nat (length (fst run))));
      cbn [andb]; try lia; reflexivity.
Qed.

Lemma visited_is_elements rb (B : Z) :
  0 <= B ->
  take (Z.to_nat B) (contents zero rb)
    = elements zero rb (Z.to_nat (Z.min B (ringbuffer_count rb))).
Proof.
  intros HB. pose proof (count_range rb).
  unfold contents. rewrite take_elements. f_equal. lia.
Qed.

Lemma drop_visited rb (B : Z) :
  0 <= B ->
  drop (Z.to_nat B) (contents zero rb)
    = contents zero (advance rb (Z.min B (ringbuffer_count rb))).
Proof.
  intros HB. pose proof (count_range rb). pose proof (contents_length zero rb).
  replace (Z.min B (ringbuffer_count rb))
    with (Z.of_nat (Z.to_nat (Z.min B (ringbuffer_count rb)))) by lia.
  rewrite contents_advance by lia.
  destruct (Z.le_gt_cases B (ringbuffer_count rb)).
  - f_equal. lia.
  - rewrite !drop_ge by lia. reflexivity.
Qed.

(** [pop_cstring_cond] with [continue] on a condition over the oldest
    element: of the elements the limit lets it visit (the first
    [limit - 1], a [size_t]), those for which the condition fails are
    copied in order and terminated; all visited elements are consumed,
    copied or not. *)
Theorem pop_cstring_cond_skip_filters_contents (p : T -> bool) rb dest limit :
  index_ok rb -> ringbuffer_empty rb = false ->
  let visited := take (Z.to_nat (to_size (limit - 1))) (contents zero rb) in
  let out := List.filter (fun x => negb (p x)) visited in
  exists r,
    ringbuffer_pop_cstring_cond zero (Some (on_oldest zero p, skip)) rb dest limit
      = Some r /\
    transferred r = Z.of_nat (length out) /\
    view (dest_after r) (length out) = out /\
    dest_after r (Z.of_nat (length out)) = zero /\
    (forall j, ~ 0 <= j <= Z.of_nat (length out) -> dest_after r j = dest j) /\
    contents zero (rb_after r)
      = drop (Z.to_nat (to_size (limit - 1))) (contents zero rb).
Proof.
  intros Hok He visited out. pose proof (to_size_range (limit - 1)) as Hlr.
  pose proof (count_range rb) as Hcr.
  destruct (pop_cstring_cond_runs p skip rb dest limit Hok He)
    as (r & Hr & Ht & Hrb & Hv & Hz & Hf).
  subst out visited. rewrite visited_is_elements by lia.
  rewrite cond_run_skip in *. cbn [fst snd] in *.
  exists r. split; [exact Hr|]. split; [exact Ht|]. split; [exact Hv|].
  split; [exact Hz|]. split; [exact Hf|].
  rewrite Hrb, elements_length, drop_visited by lia.
  rewrite Z2Nat.id by lia. reflexivity.
Qed.

(** [pop_cstring_cond] with [break] on a condition over the oldest
    element: it copies the elements before the first one for which the
    condition holds (or all the limit lets it visit) and terminates them;
    exactly the copied elements are consumed, so the element that stopped
    the loop is still the oldest. *)
Theorem pop_cstring_cond_halt_stops_before_first_match
    (p : T -> bool) rb dest limit :
  index_ok rb -> ringbuffer_empty rb = false ->
  let visited := take (Z.to_nat (to_size (limit - 1))) (contents zero rb) in
  exists r n,
    ringbuffer_pop_cstring_cond zero (Some (on_oldest zero p, halt)) rb dest limit
      = Some r /\
    transferred r = Z.of_nat n /\
    (n <= length visited)%nat /\
    view (dest_after r) n = take n visited /\
    (forall x, In x (take n visited) -> p x = false) /\
    (n < length visited ->
       exists x, nth_error visited n = Some x /\ p x = true)%nat /\
    dest_after r (Z.of_nat n) = zero /\
    (forall j, ~ 0 <= j <= Z.of_nat n -> dest_after r j = dest j) /\
    contents zero (rb_after r) = drop n (contents zero rb).
Proof.
  intros Hok He visited. pose proof (to_size_range (limit - 1)) as Hlr.
  pose proof (count_range rb) as Hcr.
  destruct (pop_cstring_cond_runs p halt rb dest limit Hok He)
    as (r & Hr & Ht & Hrb & Hv & Hz & Hf).
  subst visited. rewrite visited_is_elements by lia.
  set (l := elements zero rb
              (Z.to_nat (Z.min (to_size (limit - 1)) (ringbuffer_count rb)))) in *.
  destruct (cond_run_halt p l) as (Hout & Hle & Hall & Hnext).
  set (n := snd (cond_run p halt l)) in *.
  assert (Hlen : length (fst (cond_run p halt l)) = n).
  { rewrite Hout, length_take. lia. }
  rewrite Hlen in *. rewrite Hout in Hv.
  exists r, n. split; [exact Hr|]. split; [exact Ht|]. split; [exact Hle|].
  split; [exact Hv|]. split; [exact Hall|]. split; [exact Hnext|].
  split; [exact Hz|]. split; [exact Hf|].
  rewrite Hrb. apply contents_advance.
  subst l. rewrite elements_length in Hle. lia.
Qed.

(** One pass of the loop for any condition: it consumes at most
    [min (limit - 1, count())] elements, copies no more than it consumes,
    and writes [dest] only where it copies. *)
Lemma cond_loop_bounds paste fuel : forall s,
  index_ok (p_rb s) ->
  0 <= p_count s ->
  p_count s + ringbuffer_count (p_rb s) < SIZE_MOD ->
  (Z.to_nat (ringbuffer_count (p_rb s)) <= fuel)%nat ->
  exists s' k,
    pop_cstring_cond_loop zero paste fuel s = Some s' /\
    0 <= k <= Z.min (to_size (p_limit s - 1)) (ringbuffer_count (p_rb s)) /\
    p_rb s' = advance (p_rb s) k /\
    p_count s <= p_count s' <= p_count s + k /\
    forall j, ~ p_count s <= j < p_count s' -> p_dest s' j = p_dest s j.
Proof.
  induction fuel as [|fuel IH]; intros s Hok Hc Hfit Hfuel;
    pose proof (count_range (p_rb s)) as Hcr;
    pose proof (to_size_range (p_limit s - 1)) as Hlr.
  - rewrite cond_loop_stop by lia. exists (set_limit s (to_size (p_limit s - 1))), 0.
    cbn [set_limit p_rb p_count p_dest]. rewrite advance_0 by exact Hok. frame.
  - destruct (Z.eq_dec (to_size (p_limit s - 1)) 0) as [Hl0|Hl0];
      [|destruct (Z.eq_dec (ringbuffer_count (p_rb s)) 0) as [Hc0|Hc0]].
    1, 2: rewrite cond_loop_stop by lia;
          exists (set_limit s (to_size (p_limit s - 1))), 0;
          cbn [set_limit p_rb p_count p_dest];
          rewrite advance_0 by exact Hok; frame.
    assert (Hnext : forall s2,
              p_rb s2 = inc_output (p_rb s) ->
              p_limit s2 = to_size (p_limit s - 1) ->
              p_count s <= p_count s2 <= p_count s + 1 ->
              (forall j, ~ p_count s <= j < p_count s2 -> p_dest s2 j = p_dest s j) ->
              exists s' k,
                pop_cstring_cond_loop zero paste fuel s2 = Some s' /\
                0 <= k <= Z.min (to_size (p_limit s - 1)) (ringbuffer_count (p_rb s)) /\
                p_rb s' = advance (p_rb s) k /\
                p_count s <= p_count s' <= p_count s + k /\
                forall j, ~ p_count s <= j < p_count s' -> p_dest s' j = p_dest s j).
    { intros s2 E1 E2 E3 E4.
      destruct (IH s2) as (s' & k & Hs' & Hk & Hrb & Hcnt & Hdest).
      - rewrite E1. apply index_ok_inc_output, Hok.
      - lia.
      - rewrite E1, count_inc_output by exact Hc0. lia.
      - rewrite E1, count_inc_output by exact Hc0. lia.
      - rewrite E1, E2, count_inc_output in Hk by exact Hc0.
        rewrite (to_size_small (to_size (p_limit s - 1) - 1)) in Hk by lia.
        exists s', (k + 1). split; [exact Hs'|]. split; [lia|].
        split; [rewrite Hrb, E1, advance_inc_output; reflexivity|].
        split; [lia|].
        intros j Hj. rewrite Hdest by lia. apply E4. lia. }
    unfold pop_cstring_cond_loop.
    rewrite for_loop_iter by (apply pop_cstring_test_go; assumption).
    fold (pop_cstring_cond_loop zero paste).
    unfold pop_cond_body. cbn [pop_cstring_test snd set_limit p_rb].
    assert (Hcopy :
      exists s' k,
        pop_cstring_cond_loop zero paste fuel
          (pop_step (copy_oldest zero (set_limit s (to_size (p_limit s - 1)))))
          = Some s' /\
        0 <= k <= Z.min (to_size (p_limit s - 1)) (ringbuffer_count (p_rb s)) /\
        p_rb s' = advance (p_rb s) k /\
        p_count s <= p_count s' <= p_count s + k /\
        forall j, ~ p_count s <= j < p_count s' -> p_dest s' j = p_dest s j).
    { apply Hnext; cbn [pop_step copy_oldest set_limit p_rb p_limit p_count p_dest];
        try reflexivity.
      - rewrite to_size_small by lia. lia.
      - rewrite to_size_small by lia. intros j Hj. unfold store.
        destruct (Z.eqb_spec j (p_count s)); [lia|reflexivity]. }
    destruct paste as [[COND BEHAV]|]; [|exact Hcopy].
    destruct (COND (p_rb s)); [|exact Hcopy].
    destruct BEHAV; cbn [ctl_of].
    + apply Hnext; cbn [pop_step set_limit p_rb p_limit p_count p_dest];
        try reflexivity; try lia.
    + exists (set_limit s (to_size (p_limit s - 1))), 0.
      cbn [set_limit p_rb p_count p_dest]. rewrite advance_0 by exact Hok. frame.
Qed.

(** With [limit >= 1], [pop_cstring_cond] (whatever its condition and
    action) and [pop_cstring] stay within the limit: at most [limit - 1]
    elements are copied and consumed, the terminator included nothing is
    written outside [dest[0 .. limit - 1]], and [input] and the storage are
    untouched. *)
Theorem pop_cstring_cond_stays_within_limit paste rb dest limit :
  index_ok rb -> 1 <= limit < SIZE_MOD ->
  (exists r, ringbuffer_pop_cstring_cond zero paste rb dest limit = Some r /\
             stays_within rb dest limit r) /\
  (exists r, ringbuffer_pop_cstring zero rb dest limit = Some r /\
             stays_within rb dest limit r).
Proof.
  intros Hok Hl. pose proof (count_range rb) as Hcr.
  pose proof INDEX_MOD_le_SIZE_MOD.
  assert (Hall : forall paste', exists r,
            ringbuffer_pop_cstring_cond zero paste' rb dest limit = Some r /\
            stays_within rb dest limit r).
  { intros paste'. unfold ringbuffer_pop_cstring_cond.
    destruct (ringbuffer_empty rb) eqn:He.
    - eexists. split; [reflexivity|]. unfold stays_within. cbn. frame.
    - destruct (cond_loop_bounds paste' (pop_fuel rb) (pop_enter rb dest limit))
        as (s' & k & Hs' & Hk & Hrb & Hcnt & Hdest);
        cbn [pop_enter p_rb p_count p_dest p_limit] in *;
        try (unfold pop_fuel; lia); try assumption.
      rewrite to_size_small in Hk by lia.
      rewrite Hs'. eexists. split; [reflexivity|].
      unfold stays_within.
      cbn [pop_return terminate transferred rb_after dest_after
           p_rb p_count p_dest].
      rewrite Hrb, count_advance by lia.
      cbn [advance set_output with_cells cells input data_buffer].
      frame.
      intros j Hj. unfold store.
      destruct (Z.eqb_spec j (p_count s')); [lia|]. apply Hdest. lia. }
  split; [apply Hall|]. rewrite pop_cstring_is_cond_none. apply Hall.
Qed.

End CondQueue.

(** ** Concrete runs across the wrap of the cursors *)

Lemma index_ok_wrapped_buffer : index_ok wrapped_buffer.
Proof. split; split; (discriminate || reflexivity). Defined.

Lemma count_ok_wrapped_buffer : count_ok wrapped_buffer.
Proof. split; discriminate. Defined.

Lemma capacity_ok_wrapped_buffer : capacity_ok wrapped_buffer.
Proof.
  split; [|reflexivity]. exists 2. split; [discriminate|reflexivity].
Defined.

(** [push_front] on the wrapped buffer. *)
Lemma push_front_appends_to_contents_witness :
  index_ok wrapped_buffer /\ count_ok wrapped_buffer /\
  capacity_ok wrapped_buffer /\
  contents 0 wrapped_buffer = [40; 10] /\
  contents 0 (snd (ringbuffer_push_front wrapped_buffer 9))
    = contents 0 wrapped_buffer ++ [9].
Proof.
  split; [exact index_ok_wrapped_buffer|].
  split; [exact count_ok_wrapped_buffer|].
  split; [exact capacity_ok_wrapped_buffer|].
  split; [reflexivity|].
  pose proof (push_front_appends_to_contents 0 wrapped_buffer 9
                index_ok_wrapped_buffer count_ok_wrapped_buffer
                capacity_ok_wrapped_buffer eq_refl) as H.
  cbv zeta in H. destruct H as (H & _).
  exact (proj1 (proj2 (H eq_refl))).
Defined.

(** [pop_string] with room for one element on the wrapped buffer. *)
Lemma pop_string_takes_prefix_of_contents_witness :
  index_ok wrapped_buffer /\ 0 <= 1 < SIZE_MOD /\
  exists r,
    ringbuffer_pop_string 0 wrapped_buffer (fun _ => 7) 1 = Some r /\
    contents 0 (rb_after r) = drop (Z.to_nat 1) (contents 0 wrapped_buffer).
Proof.
  assert (Hl : 0 <= 1 < SIZE_MOD) by (split; (discriminate || reflexivity)).
  split; [exact index_ok_wrapped_buffer|]. split; [exact Hl|].
  destruct (pop_string_takes_prefix_of_contents 0 wrapped_buffer (fun _ => 7) 1
              index_ok_wrapped_buffer Hl) as (r & Hr & _ & _ & Hc & _).
  exists r. split; [exact Hr|exact Hc].
Defined.

(** Three values offered to the wrapped buffer, which has room for two. *)
Lemma push_front_all_accepts_until_full_witness :
  index_ok wrapped_buffer /\ count_ok wrapped_buffer /\
  capacity_ok wrapped_buffer /\
  fst (push_front_all wrapped_buffer [1; 2; 3]) = 2 /\
  contents 0 (snd (push_front_all wrapped_buffer [1; 2; 3])) = [40; 10; 1; 2].
Proof.
  split; [exact index_ok_wrapped_buffer|].
  split; [exact count_ok_wrapped_buffer|].
  split; [exact capacity_ok_wrapped_buffer|].
  pose proof (push_front_all_accepts_until_full 0 [1; 2; 3] wrapped_buffer
                index_ok_wrapped_buffer count_ok_wrapped_buffer
                capacity_ok_wrapped_buffer eq_refl) as H.
  cbv zeta in H. destruct H as (H1 & H2 & _).
  split; [exact H1|exact H2].
Defined.

(** [1, 2, 3] through a re-initialised copy of the wrapped buffer. *)
Lemma push_then_pop_string_returns_the_list_witness :
  capacity_ok wrapped_buffer /\
  exists r,
    ringbuffer_pop_string 0
      (snd (push_front_all (ringbuffer_init wrapped_buffer None) [1; 2; 3]))
      (fun _ => 7) 10 = Some r /\
    view (dest_after r) 3 = [1; 2; 3].
Proof.
  split; [exact capacity_ok_wrapped_buffer|].
  assert (H1 : Z.of_nat (length [1; 2; 3]) <= BUFFER_LEN wrapped_buffer)
    by discriminate.
  assert (H2 : Z.of_nat (length [1; 2; 3]) <= 10 < SIZE_MOD)
    by (split; (discriminate || reflexivity)).
  pose proof (push_then_pop_string_returns_the_list 0 wrapped_buffer [1; 2; 3]
                (fun _ => 7) 10 capacity_ok_wrapped_buffer H1 H2) as H.
  cbv zeta in H. destruct H as (_ & r & Hr & _ & Hv & _).
  exists r. split; [exact Hr|exact Hv].
Defined.

(** Skipping the elements equal to 40 on the wrapped buffer. *)
Lemma pop_cstring_cond_skip_filters_contents_witness :
  index_ok wrapped_buffer /\ ringbuffer_empty wrapped_buffer = false /\
  exists r,
    ringbuffer_pop_cstring_cond 0 (Some (on_oldest 0 (Z.eqb 40), skip))
      wrapped_buffer (fun _ => 7) 8 = Some r /\
    transferred r = 1 /\
    ringbuffer_empty (rb_after r) = true.
Proof.
  split; [exact index_ok_wrapped_buffer|]. split; [reflexivity|].
  pose proof (pop_cstring_cond_skip_filters_contents 0 (Z.eqb 40) wrapped_buffer
                (fun _ => 7) 8 index_ok_wrapped_buffer eq_refl) as H.
  cbv zeta in H. destruct H as (r & Hr & Ht & _ & _ & _ & Hc).
  exists r. split; [exact Hr|]. split; [exact Ht|].
  apply empty_iff, (contents_nil_iff 0), Hc.
Defined.

(** Halting at the elements equal to 10 on the wrapped buffer. *)
Lemma pop_cstring_cond_halt_stops_before_first_match_witness :
  index_ok wrapped_buffer /\ ringbuffer_empty wrapped_buffer = false /\
  exists r n,
    ringbuffer_pop_cstring_cond 0 (Some (on_oldest 0 (Z.eqb 10), halt))
      wrapped_buffer (fun _ => 7) 8 = Some r /\
    transferred r = Z.of_nat n /\
    contents 0 (rb_after r) = drop n (contents 0 wrapped_buffer).
Proof.
  split; [exact index_ok_wrapped_buffer|]. split; [reflexivity|].
  pose proof (pop_cstring_cond_halt_stops_before_first_match 0 (Z.eqb 10)
                wrapped_buffer (fun _ => 7) 8 index_ok_wrapped_buffer eq_refl)
    as H.
  cbv zeta in H.
  destruct H as (r & n & Hr & Ht & _ & _ & _ & _ & _ & _ & Hc).
  exists r, n. split; [exact Hr|]. split; [exact Ht|exact Hc].
Defined.

(** [pop_cstring] with limit 2 on the wrapped buffer. *)
Lemma pop_cstring_cond_stays_within_limit_witness :
  index_ok wrapped_buffer /\ 1 <= 2 < SIZE_MOD /\
  exists r,
    ringbuffer_pop_cstring 0 wrapped_buffer (fun _ => 7) 2 = Some r /\
    stays_within wrapped_buffer (fun _ => 7) 2 r.
Proof.
  assert (Hl : 1 <= 2 < SIZE_MOD) by (split; (discriminate || reflexivity)).
  split; [exact index_ok_wrapped_buffer|]. split; [exact Hl|].
  exact (proj2 (pop_cstring_cond_stays_within_limit 0 None wrapped_buffer
                  (fun _ => 7) 2 index_ok_wrapped_buffer Hl)).
Defined.
